(** * Fourier components of a light curve

    A shallow embedding of [feets/extractors/ext_fourier_components.py]
    (class [FourierComponents]): the iterative extraction of up to five
    fundamental frequencies, the four-harmonic fit of each of them, the
    phase normalisation and the assembly of the feature dictionary.

    Numbers.  Python floats are modelled by the real numbers of the
    Standard Library: [np.sin], [np.cos], [np.sqrt], [np.arctan] and
    [np.pi] are [sin], [cos], [sqrt], [atan] and [PI].  Rounding, NaN and
    signed zeros are outside the model; the one place where the source
    names an infinity ([np.inf] in [calculate_snr]) has a constructor of
    its own.

    Collaborators.  [lscargle] (the Lomb-Scargle periodogram),
    [scipy.signal.find_peaks] and [scipy.optimize.curve_fit] are library
    code the module only calls; they are parameters of the development.

    Exceptions.  Python raises where the model returns [Raise]: indexing
    out of range, arithmetic on [None], reductions of an empty array. *)

From Stdlib Require Import Reals Lra Lia List String DecimalString.
From stdpp Require Import gmap strings.
Import ListNotations.
Local Open Scope R_scope.

(** ** Python results: a value or a raised exception *)

Inductive exn : Type := TypeError | IndexError | ValueError.

Inductive res (A : Type) : Type :=
| Ok (a : A)
| Raise (e : exn).
Arguments Ok {A} a.
Arguments Raise {A} e.

#[global] Instance res_bind : MBind res :=
  fun A B f m => match m with Ok a => f a | Raise e => Raise e end.
#[global] Instance res_ret : MRet res := fun A a => Ok a.

(** ** Comparisons of floats, as booleans *)

Definition Rleb (x y : R) : bool := if Rle_dec x y then true else false.
Definition Rltb (x y : R) : bool := if Rlt_dec x y then true else false.
Definition Reqb (x y : R) : bool := if Req_dec_T x y then true else false.

(** The value returned by [calculate_snr]: a quotient, or [np.inf]. *)
Inductive snr_value : Type :=
| Finite (r : R)
| PInf.

(** [snr < snr_threshold] *)
Definition snr_ltb (s : snr_value) (t : R) : bool :=
  match s with
  | Finite r => Rltb r t
  | PInf => false
  end.

(** ** The numpy operations the module uses *)

Module Np.

(** [l[i]] for a non-negative index. *)
Definition index {A : Type} (l : list A) (i : nat) : res A :=
  match l !! i with
  | Some x => Ok x
  | None => Raise IndexError
  end.

(** [l[idxs]], indexing by an array of positions. *)
Fixpoint take_idx {A : Type} (l : list A) (idxs : list nat) : res (list A) :=
  match idxs with
  | [] => Ok []
  | i :: idxs' =>
      x ← index l i;
      xs ← take_idx l idxs';
      Ok (x :: xs)
  end.

Fixpoint select {A : Type} (l : list A) (mask : list bool) : list A :=
  match l, mask with
  | x :: l', b :: mask' => if b then x :: select l' mask' else select l' mask'
  | _, _ => []
  end.

(** [l[mask]], indexing by a boolean array: the lengths must agree. *)
Definition bool_index {A : Type} (l : list A) (mask : list bool) : res (list A) :=
  if (length l =? length mask)%nat then Ok (select l mask) else Raise IndexError.

(** [np.min(l)] *)
Definition min (l : list R) : res R :=
  match l with
  | [] => Raise ValueError
  | x :: l' => Ok (fold_left Rmin l' x)
  end.

Fixpoint argmax_from (best : R) (besti i : nat) (l : list R) : nat :=
  match l with
  | [] => besti
  | x :: l' =>
      if Rltb best x then argmax_from x i (S i) l'
      else argmax_from best besti (S i) l'
  end.

(** [np.argmax(l)]: the first position of the maximum. *)
Definition argmax (l : list R) : res nat :=
  match l with
  | [] => Raise ValueError
  | x :: l' => Ok (argmax_from x 0%nat 1%nat l')
  end.

Fixpoint first_true (i : nat) (l : list bool) : option nat :=
  match l with
  | [] => None
  | b :: l' => if b then Some i else first_true (S i) l'
  end.

(** [np.argmax] of a boolean array: the first [True], 0 when there is none. *)
Definition argmax_bool (l : list bool) : res nat :=
  match l with
  | [] => Raise ValueError
  | _ => Ok (default 0%nat (first_true 0%nat l))
  end.

(** [np.delete(l, i)] *)
Definition delete (l : list R) (i : nat) : res (list R) :=
  if (i <? length l)%nat then Ok (take i l ++ drop (S i) l) else Raise IndexError.

Definition sum (l : list R) : R := fold_left Rplus l 0.

(** [np.mean(l)] *)
Definition mean (l : list R) : R := sum l / INR (length l).

(** [x - y] on arrays of one length (the magnitudes and the model
    evaluated at the times of the same light curve). *)
Definition sub (x y : list R) : list R := zip_with Rminus x y.

End Np.

(** [n * f] where [f] may be [None]: Python raises [TypeError] then. *)
Definition py_mul (n : nat) (f : option R) : res R :=
  match f with
  | Some x => Ok (INR n * x)
  | None => Raise TypeError
  end.

(** [1 / f] where [f] may be [None]. *)
Definition py_inv (f : option R) : res R :=
  match f with
  | Some x => Ok (1 / x)
  | None => Raise TypeError
  end.

(** [str(n)] *)
Definition str (n : nat) : string := NilEmpty.string_of_uint (Nat.to_uint n).

(** ** The working state of [_components] *)

Record state : Type := mkState {
  magnitude : list R;
  A : list (list R);
  PH : list (list R);
  freq : list (option R)
}.

(** What the three helper searches return: [(None, None, None)] or
    [(frequency, power, index)]. *)
Definition peak : Type := (option R * option (list R) * option nat)%type.

Definition no_peak : peak := (None, None, None).

(** ** Concrete collaborators for the worked examples

    The examples at the end of the file run the extractor on concrete
    light curves; they need a periodogram, a peak finder and a fitter to
    run with. *)

Fixpoint local_maxima_from (i : nat) (prev : R) (x : list R) : list nat :=
  match x with
  | cur :: ((next :: _) as rest) =>
      if Rltb prev cur && Rltb next cur
      then i :: local_maxima_from (S i) cur rest
      else local_maxima_from (S i) cur rest
  | _ => []
  end.

(** The positions of the strict interior local maxima: what [find_peaks]
    returns on a series without plateaus. *)
Definition local_maxima (x : list R) : list nat :=
  match x with
  | [] => []
  | x0 :: rest => local_maxima_from 1 x0 rest
  end.

(** A periodogram read from a table, whatever the light curve (the third
    component, the position of the highest power, is not used by the
    module). *)
Definition tabulated (frequency power : list R)
    : list R -> list R -> unit -> list R * list R * nat :=
  fun _ _ _ => (frequency, power, 0%nat).

(** The frequency grid of the examples, and three power spectra on it.
    They differ in the first three bins, the ones inside [0.4, 3.3]: a
    peak five times the noise around it, a peak twice the noise, and
    powers that only rise, without a peak among the three. *)
Definition grid : list R := [0.5; 1; 1.5; 4; 5; 6].
Definition strong_power : list R := [1; 5; 1; 1; 9; 1].
Definition weak_power : list R := [1; 2; 1; 1; 9; 1].
Definition rising_power : list R := [1; 2; 3; 1; 9; 1].

(** A spectrum without any local maximum. *)
Definition increasing_power : list R := [1; 2; 3; 4; 5; 6].

(** A fitter for a light curve of one observation [(t0, y0)]: the
    coefficients [a = 1], [b = y0] and the offset [c] that makes the model
    pass through the observation, so that the sum of squares is zero. *)
Definition interpolating_fit (f : R -> R -> R -> R -> R) (xdata ydata : list R)
    : R * R * R :=
  match xdata, ydata with
  | t0 :: _, y0 :: _ => (1, y0, y0 - f t0 1 y0 0)
  | _, _ => (1, 0, 0)
  end.

(** ** The extractor *)

Section FourierComponents.

(** The keyword arguments passed through to the periodogram. *)
Variable kwds : Type.

(** [lscargle(time, magnitude, **kwds)] returns
    [(frequency, power, fmax)]. *)
Variable lscargle : list R -> list R -> kwds -> list R * list R * nat.

(** [find_peaks(power)[0]]: positions of the local maxima. *)
Variable find_peaks : list R -> list nat.

(** [curve_fit(f, xdata, ydata)[0][:3]]: the fitted [a], [b], [c]. *)
Variable curve_fit : (R -> R -> R -> R -> R) -> list R -> list R -> R * R * R.

Definition _model (x : list R) (a b c Freq : R) : list R :=
  map (fun x => a * sin (2 * PI * Freq * x) + b * cos (2 * PI * Freq * x) + c) x.

Definition _yfunc_maker (Freq : R) : R -> R -> R -> R -> R :=
  fun x a b c => a * sin (2 * PI * Freq * x) + b * cos (2 * PI * Freq * x) + c.

(** [(frequency >= lo) & (frequency <= hi)] *)
Definition between_mask (lo hi : R) (frequency : list R) : list bool :=
  map (fun f => Rleb lo f && Rleb f hi) frequency.

Definition calculate_snr (frequency power : list R) (fmax_idx : nat)
    (window_size : R) : res snr_value :=
  peak_power ← Np.index power fmax_idx;
  fmax ← Np.index frequency fmax_idx;
  let window_mask :=
    between_mask (fmax - window_size) (fmax + window_size) frequency in
  power_w ← Np.bool_index power window_mask;
  frequency_w ← Np.bool_index frequency window_mask;
  k ← Np.argmax_bool (map (fun f => Reqb f fmax) frequency_w);
  noise_power ← Np.delete power_w k;
  if (length noise_power =? 0)%nat then Ok PInf
  else
    let average_noise_power := Np.mean noise_power in
    Ok (Finite (peak_power / average_noise_power)).

(** [peaks[np.argmax(power[peaks])]] *)
Definition highest_peak (power : list R) (peaks : list nat) : res nat :=
  power_peaks ← Np.take_idx power peaks;
  k ← Np.argmax power_peaks;
  Np.index peaks k.

Definition get_highest_frequency (time magnitude : list R)
    (lscargle_kwds : kwds) : res peak :=
  let '(frequency, power, _) := lscargle time magnitude lscargle_kwds in
  let peaks := find_peaks power in
  if (length peaks =? 0)%nat then Ok no_peak
  else
    highest_peak_idx ← highest_peak power peaks;
    highest_freq ← Np.index frequency highest_peak_idx;
    Ok (Some highest_freq, Some power, Some highest_peak_idx).

(** [if freq_range:] is true of a non-empty list. *)
Definition truthy (freq_range : option (list R)) : bool :=
  match freq_range with
  | Some (_ :: _) => true
  | _ => false
  end.

Definition apply_range (freq_range : option (list R))
    (frequency power : list R) : res (list R * list R) :=
  if truthy freq_range then
    let r := default [] freq_range in
    lo ← Np.index r 0;
    hi ← Np.index r 1;
    let mask := between_mask lo hi frequency in
    frequency' ← Np.bool_index frequency mask;
    power' ← Np.bool_index power mask;
    Ok (frequency', power')
  else Ok (frequency, power).

Definition get_significant_frequency (time magnitude : list R)
    (lscargle_kwds : kwds) (snr_threshold window_size : R)
    (freq_range : option (list R)) : res peak :=
  let '(frequency, power, _) := lscargle time magnitude lscargle_kwds in
  '(frequency, power) ← apply_range freq_range frequency power;
  let peaks := find_peaks power in
  if (length peaks =? 0)%nat then Ok no_peak
  else
    highest_peak_idx ← highest_peak power peaks;
    snr ← calculate_snr frequency power highest_peak_idx window_size;
    if snr_ltb snr snr_threshold then Ok no_peak
    else
      f ← Np.index frequency highest_peak_idx;
      Ok (Some f, Some power, Some highest_peak_idx).

(** The body of [for j in range(4)], on the remaining values of [j].
    [omagnitude] is bound once, before the loop; [magnitude] is rebound
    by every iteration. *)
Fixpoint harmonics (js : list nat) (fundamental_Freq : option R)
    (time omagnitude : list R) (Atemp PHtemp magnitude : list R)
    : res (list R * list R * list R) :=
  match js with
  | [] => Ok (Atemp, PHtemp, magnitude)
  | j :: js' =>
      Freq ← py_mul (j + 1) fundamental_Freq;
      let function_to_fit := _yfunc_maker Freq in
      let '(popt0, popt1, popt2) := curve_fit function_to_fit time omagnitude in
      let Atemp := Atemp ++ [sqrt (popt0 ^ 2 + popt1 ^ 2)] in
      let PHtemp := PHtemp ++ [atan (popt1 / popt0)] in
      Freq ← py_mul (j + 1) fundamental_Freq;
      let model := _model time popt0 popt1 popt2 Freq in
      let magnitude := Np.sub magnitude model in
      harmonics js' fundamental_Freq time omagnitude Atemp PHtemp magnitude
  end.

(** The block that follows every search in the source (it is written
    out four times, once per loop): record the frequency, fit and
    remove four harmonics, record amplitudes and phases. *)
Definition fit_slot (time : list R) (fundamental_Freq : option R)
    (s : state) : res state :=
  let omagnitude := magnitude s in
  let freq := freq s ++ [fundamental_Freq] in
  '(Atemp, PHtemp, magnitude) ←
    harmonics (seq 0 4) fundamental_Freq time omagnitude [] [] (magnitude s);
  Ok (mkState magnitude (A s ++ [Atemp]) (PH s ++ [PHtemp]) freq).

(** One iteration of [for i in range(3)]. *)
Definition initial_slot (time : list R) (lscargle_kwds : kwds)
    (s : state) : res state :=
  '(fundamental_Freq, power, fmax) ←
    get_highest_frequency time (magnitude s) lscargle_kwds;
  fit_slot time fundamental_Freq s.

Fixpoint initial_loop (n : nat) (time : list R) (lscargle_kwds : kwds)
    (s : state) : res state :=
  match n with
  | O => Ok s
  | S n' =>
      s' ← initial_slot time lscargle_kwds s;
      initial_loop n' time lscargle_kwds s'
  end.

(** One iteration of a [for i in range(2)] loop: [None] is [break]. *)
Definition extension_slot (time : list R) (lscargle_kwds : kwds)
    (snr_threshold window_size : R) (freq_range : option (list R))
    (s : state) : res (option state) :=
  '(fundamental_Freq, power, fmax) ←
    get_significant_frequency time (magnitude s) lscargle_kwds
      snr_threshold window_size freq_range;
  match fundamental_Freq with
  | None => Ok None
  | Some _ => s' ← fit_slot time fundamental_Freq s; Ok (Some s')
  end.

Fixpoint extension_loop (n : nat) (time : list R) (lscargle_kwds : kwds)
    (snr_threshold window_size : R) (freq_range : option (list R))
    (s : state) : res state :=
  match n with
  | O => Ok s
  | S n' =>
      r ← extension_slot time lscargle_kwds snr_threshold window_size
            freq_range s;
      match r with
      | None => Ok s
      | Some s' =>
          extension_loop n' time lscargle_kwds snr_threshold window_size
            freq_range s'
      end
  end.

Definition range1 : list R := [0.4; 3.3].
Definition range2 : list R := [3.3; 27.4].

(** [any(lo <= f <= hi for f in freq)]; comparing with [None] raises. *)
Fixpoint any_between (lo hi : R) (freq : list (option R)) : res bool :=
  match freq with
  | [] => Ok false
  | None :: _ => Raise TypeError
  | Some f :: freq' =>
      if Rleb lo f && Rleb f hi then Ok true else any_between lo hi freq'
  end.

Definition range_present (r : list R) (freq : list (option R)) : res bool :=
  lo ← Np.index r 0;
  hi ← Np.index r 1;
  any_between lo hi freq.

(** Every row minus its first entry. *)
Fixpoint scale_rows (PH : list (list R)) : res (list (list R)) :=
  match PH with
  | [] => Ok []
  | row :: PH' =>
      c ← Np.index row 0;
      rows ← scale_rows PH';
      Ok (map (fun x => x - c) row :: rows)
  end.

(** [PH - PH[:, 0].reshape((len(PH), 1))], on the matrix [np.asarray(PH)]
    of the rows of four phases; without a row the array has one
    dimension and [PH[:, 0]] is out of range. *)
Definition scale_phases (PH : list (list R)) : res (list (list R)) :=
  match PH with
  | [] => Raise IndexError
  | _ :: _ => scale_rows PH
  end.

(** [_components] up to, and without, the phase normalisation. *)
Definition _components_state (magnitude time : list R) (lscargle_kwds : kwds)
    (snr_threshold window_size : R) : res state :=
  m ← Np.min time;
  let time := map (fun t => t - m) time in
  s ← initial_loop 3 time lscargle_kwds (mkState magnitude [] [] []);
  range1_present ← range_present range1 (freq s);
  range2_present ← range_present range2 (freq s);
  if range1_present && range2_present then
    extension_loop 2 time lscargle_kwds snr_threshold window_size None s
  else if negb range1_present then
    extension_loop 2 time lscargle_kwds snr_threshold window_size
      (Some range1) s
  else if negb range2_present then
    extension_loop 2 time lscargle_kwds snr_threshold window_size
      (Some range2) s
  else Ok s.

Definition _components (magnitude time : list R) (lscargle_kwds : kwds)
    (snr_threshold window_size : R)
    : res (list (list R) * list (list R) * list (option R)) :=
  s ← _components_state magnitude time lscargle_kwds snr_threshold window_size;
  scaledPH ← scale_phases (PH s);
  Ok (A s, scaledPH, freq s).

(** *** Output assembly *)

Definition amplitude_key (i j : nat) : string :=
  ("Freq" ++ str (i + 1) ++ "_harmonics_amplitude_" ++ str j)%string.
Definition rel_phase_key (i j : nat) : string :=
  ("Freq" ++ str (i + 1) ++ "_harmonics_rel_phase_" ++ str j)%string.
Definition period_key (i : nat) : string :=
  ("PeriodLS" ++ str (i + 1))%string.

(** [for j in range(4)] of a populated slot. *)
Fixpoint fill_present (js : list nat) (i : nat) (A sPH : list (list R))
    (result : gmap string (option R)) : res (gmap string (option R)) :=
  match js with
  | [] => Ok result
  | j :: js' =>
      Ai ← Np.index A i;
      a ← Np.index Ai j;
      let result := <[amplitude_key i j := Some a]> result in
      sPHi ← Np.index sPH i;
      p ← Np.index sPHi j;
      let result := <[rel_phase_key i j := Some p]> result in
      fill_present js' i A sPH result
  end.

(** [for j in range(4)] of an unpopulated slot. *)
Fixpoint fill_absent (js : list nat) (i : nat)
    (result : gmap string (option R)) : gmap string (option R) :=
  match js with
  | [] => result
  | j :: js' =>
      let result := <[amplitude_key i j := None]> result in
      let result := <[rel_phase_key i j := None]> result in
      fill_absent js' i result
  end.

(** The body of [for i in range(5)]. *)
Definition fill_slot (i : nat) (A sPH : list (list R)) (freq : list (option R))
    (result : gmap string (option R)) : res (gmap string (option R)) :=
  if (i <? length freq)%nat then
    result ← fill_present (seq 0 4) i A sPH result;
    if (0 <? i)%nat then
      f ← Np.index freq i;
      p ← py_inv f;
      Ok (<[period_key i := Some p]> result)
    else Ok result
  else
    let result := fill_absent (seq 0 4) i result in
    if (0 <? i)%nat then Ok (<[period_key i := None]> result)
    else Ok result.

Fixpoint fill (slots : list nat) (A sPH : list (list R)) (freq : list (option R))
    (result : gmap string (option R)) : res (gmap string (option R)) :=
  match slots with
  | [] => Ok result
  | i :: slots' =>
      result ← fill_slot i A sPH freq result;
      fill slots' A sPH freq result
  end.

(** [fit]: [_components] is called with its defaults,
    [snr_threshold=3] and [window_size=0.5].  The keyword arguments are
    opaque here, and so is their defaulting ([lscargle_kwds or {}]). *)
Definition fit (magnitude time : list R) (lscargle_kwds : kwds)
    : res (gmap string (option R)) :=
  '(A, sPH, freq) ← _components magnitude time lscargle_kwds 3 0.5;
  fill (seq 0 5) A sPH freq ∅.

(** *** The specification's reading of two steps

    Two definitions that follow the words of the specification rather
    than the source, to be compared with [harmonics] and
    [scale_phases]. *)

(** Every harmonic fitted to the current residual, which already has the
    earlier harmonics of the slot removed. *)
Fixpoint harmonics_sequential (js : list nat) (fundamental_Freq : option R)
    (time : list R) (Atemp PHtemp magnitude : list R)
    : res (list R * list R * list R) :=
  match js with
  | [] => Ok (Atemp, PHtemp, magnitude)
  | j :: js' =>
      Freq ← py_mul (j + 1) fundamental_Freq;
      let function_to_fit := _yfunc_maker Freq in
      let '(popt0, popt1, popt2) := curve_fit function_to_fit time magnitude in
      let Atemp := Atemp ++ [sqrt (popt0 ^ 2 + popt1 ^ 2)] in
      let PHtemp := PHtemp ++ [atan (popt1 / popt0)] in
      let model := _model time popt0 popt1 popt2 Freq in
      let magnitude := Np.sub magnitude model in
      harmonics_sequential js' fundamental_Freq time Atemp PHtemp magnitude
  end.

(** Every slot normalised against the first harmonic of slot 0. *)
Definition scale_phases_global (PH : list (list R)) : res (list (list R)) :=
  row0 ← Np.index PH 0;
  c ← Np.index row0 0;
  Ok (map (map (fun x => x - c)) PH).

(** *** Vocabulary of the statements *)

(** The coefficients fitted for harmonic [j + 1] of the fundamental [f]
    on the series [ydata]. *)
Definition harmonic_fit (time ydata : list R) (f : R) (j : nat) : R * R * R :=
  curve_fit (_yfunc_maker (INR (j + 1) * f)) time ydata.

Definition harmonic_amplitude (time ydata : list R) (f : R) (j : nat) : R :=
  let '(a, b, _) := harmonic_fit time ydata f j in sqrt (a ^ 2 + b ^ 2).

Definition harmonic_phase (time ydata : list R) (f : R) (j : nat) : R :=
  let '(a, b, _) := harmonic_fit time ydata f j in atan (b / a).

Definition harmonic_model (time ydata : list R) (f : R) (j : nat) : list R :=
  let '(a, b, c) := harmonic_fit time ydata f j in
  _model time a b c (INR (j + 1) * f).

(** The state after a slot of frequency [f]: four fits on the series
    the slot starts from, the four models taken off one after the
    other. *)
Definition populated (time : list R) (f : R) (s : state) : state :=
  mkState
    (fold_left (fun m j => Np.sub m (harmonic_model time (magnitude s) f j))
       (seq 0 4) (magnitude s))
    (A s ++ [map (harmonic_amplitude time (magnitude s) f) (seq 0 4)])
    (PH s ++ [map (harmonic_phase time (magnitude s) f) (seq 0 4)])
    (freq s ++ [Some f]).

(** The powers of the bins other than [idx] whose frequency lies in
    [[lo, hi]]; [k] is the position of the first bin of the lists. *)
Fixpoint window_noise (k idx : nat) (lo hi : R) (frequency power : list R)
    : list R :=
  match frequency, power with
  | f :: frequency', p :: power' =>
      if negb (k =? idx)%nat && (Rleb lo f && Rleb f hi)
      then p :: window_noise (S k) idx lo hi frequency' power'
      else window_noise (S k) idx lo hi frequency' power'
  | _, _ => []
  end.

(** The amplitudes (the phases) of a slot are those of the four
    harmonics of the slot's frequency, fitted on one series. *)
Definition slot_amplitudes (time : list R) (row : list R) (f : option R)
    : Prop :=
  exists x ydata,
    f = Some x /\ row = map (harmonic_amplitude time ydata x) (seq 0 4).

Definition slot_phases (time : list R) (row : list R) (f : option R)
    : Prop :=
  exists x ydata,
    f = Some x /\ row = map (harmonic_phase time ydata x) (seq 0 4).

(** Every slot of the state is populated: a frequency, four amplitudes
    and four phases. *)
Definition well_formed (time : list R) (s : state) : Prop :=
  Forall2 (slot_amplitudes time) (A s) (freq s) /\
  Forall2 (slot_phases time) (PH s) (freq s).

(** The entries [fit] writes for slot [i], in the order it writes them:
    a value read from [_components]' result, or [None] where it has
    none. *)
Definition slot_items (i : nat) (A sPH : list (list R)) (freq : list (option R))
    : list (string * option R) :=
  flat_map (fun j => [(amplitude_key i j, A !! i ≫= (.!! j));
                      (rel_phase_key i j, sPH !! i ≫= (.!! j))]) (seq 0 4)
  ++ (if (0 <? i)%nat
      then [(period_key i, f ← freq !! i; x ← f; Some (1 / x))]
      else []).

Definition items (A sPH : list (list R)) (freq : list (option R))
    : list (string * option R) :=
  flat_map (fun i => slot_items i A sPH freq) (seq 0 5).

(** The features the class declares. *)
Definition features : list string :=
  [ "Freq1_harmonics_amplitude_0"; "Freq1_harmonics_amplitude_1";
    "Freq1_harmonics_amplitude_2"; "Freq1_harmonics_amplitude_3";
    "Freq2_harmonics_amplitude_0"; "Freq2_harmonics_amplitude_1";
    "Freq2_harmonics_amplitude_2"; "Freq2_harmonics_amplitude_3";
    "Freq3_harmonics_amplitude_0"; "Freq3_harmonics_amplitude_1";
    "Freq3_harmonics_amplitude_2"; "Freq3_harmonics_amplitude_3";
    "Freq4_harmonics_amplitude_0"; "Freq4_harmonics_amplitude_1";
    "Freq4_harmonics_amplitude_2"; "Freq4_harmonics_amplitude_3";
    "Freq5_harmonics_amplitude_0"; "Freq5_harmonics_amplitude_1";
    "Freq5_harmonics_amplitude_2"; "Freq5_harmonics_amplitude_3";
    "Freq1_harmonics_rel_phase_0"; "Freq1_harmonics_rel_phase_1";
    "Freq1_harmonics_rel_phase_2"; "Freq1_harmonics_rel_phase_3";
    "Freq2_harmonics_rel_phase_0"; "Freq2_harmonics_rel_phase_1";
    "Freq2_harmonics_rel_phase_2"; "Freq2_harmonics_rel_phase_3";
    "Freq3_harmonics_rel_phase_0"; "Freq3_harmonics_rel_phase_1";
    "Freq3_harmonics_rel_phase_2"; "Freq3_harmonics_rel_phase_3";
    "Freq4_harmonics_rel_phase_0"; "Freq4_harmonics_rel_phase_1";
    "Freq4_harmonics_rel_phase_2"; "Freq4_harmonics_rel_phase_3";
    "Freq5_harmonics_rel_phase_0"; "Freq5_harmonics_rel_phase_1";
    "Freq5_harmonics_rel_phase_2"; "Freq5_harmonics_rel_phase_3";
    "PeriodLS2"; "PeriodLS3"; "PeriodLS4"; "PeriodLS5" ]%string.


(** *** What the module expects of its collaborators *)

(** The periodogram has as many powers as frequencies. *)
Definition aligned_periodogram : Prop :=
  forall time magnitude lscargle_kwds frequency power fmax,
    lscargle time magnitude lscargle_kwds = (frequency, power, fmax) ->
    length frequency = length power.

(** The peak finder returns positions of the series it is given. *)
Definition peaks_in_bounds : Prop :=
  forall power i, i ∈ find_peaks power -> (i < length power)%nat.

(** Every periodogram has a local maximum. *)
Definition always_a_peak : Prop :=
  forall time magnitude lscargle_kwds frequency power fmax,
    lscargle time magnitude lscargle_kwds = (frequency, power, fmax) ->
    find_peaks power <> [].

(** ** Basic facts *)

Lemma Rleb_true x y : x <= y -> Rleb x y = true.
Proof. unfold Rleb. destruct (Rle_dec x y); [reflexivity | contradiction]. Qed.

Lemma Rleb_false x y : y < x -> Rleb x y = false.
Proof. unfold Rleb. destruct (Rle_dec x y); [lra | reflexivity]. Qed.

Lemma Rltb_true x y : x < y -> Rltb x y = true.
Proof. unfold Rltb. destruct (Rlt_dec x y); [reflexivity | contradiction]. Qed.

Lemma Rltb_false x y : y <= x -> Rltb x y = false.
Proof. unfold Rltb. destruct (Rlt_dec x y); [lra | reflexivity]. Qed.

Lemma Reqb_true x y : x = y -> Reqb x y = true.
Proof. unfold Reqb. destruct (Req_dec_T x y); [reflexivity | contradiction]. Qed.

Lemma Reqb_false x y : x <> y -> Reqb x y = false.
Proof. unfold Reqb. destruct (Req_dec_T x y); [contradiction | reflexivity]. Qed.

Lemma Rleb_spec x y : Rleb x y = true <-> x <= y.
Proof. unfold Rleb. destruct (Rle_dec x y); split; intros; try discriminate; auto; lra. Qed.

Lemma between_spec lo hi f : Rleb lo f && Rleb f hi = true <-> lo <= f <= hi.
Proof. rewrite andb_true_iff, !Rleb_spec. tauto. Qed.

Lemma bind_Ok {X Y : Type} (m : res X) (k : X -> res Y) (y : Y) :
  m ≫= k = Ok y -> exists x, m = Ok x /\ k x = Ok y.
Proof. destruct m as [x | e]; simpl; intros H; [eauto | discriminate]. Qed.

Lemma bind_Raise {X Y : Type} (m : res X) (k : X -> res Y) (e : exn) :
  m = Raise e -> m ≫= k = Raise e.
Proof. intros ->. reflexivity. Qed.

Lemma bind_Ok_first {X Y : Type} (x : X) (k : X -> res Y) : Ok x ≫= k = k x.
Proof. reflexivity. Qed.

Lemma index_Ok {X : Type} (l : list X) (i : nat) (x : X) :
  Np.index l i = Ok x <-> l !! i = Some x.
Proof.
  unfold Np.index. destruct (l !! i); split; intros H; try discriminate; congruence.
Qed.

(** ** Harmonics of one slot *)

(** Whatever the harmonics asked for, each of them is fitted to
    [omagnitude], and each model is taken off the running residual. *)
Lemma harmonics_closed_form js : forall f time omagnitude Atemp PHtemp magnitude,
  harmonics js (Some f) time omagnitude Atemp PHtemp magnitude =
  Ok (Atemp ++ map (harmonic_amplitude time omagnitude f) js,
      PHtemp ++ map (harmonic_phase time omagnitude f) js,
      fold_left (fun m j => Np.sub m (harmonic_model time omagnitude f j)) js
        magnitude).
Proof.
  induction js as [| j js IH]; intros f time omagnitude Atemp PHtemp magnitude.
  - simpl. rewrite !app_nil_r. reflexivity.
  - simpl. unfold harmonic_amplitude, harmonic_phase, harmonic_model, harmonic_fit.
    destruct (curve_fit (_yfunc_maker (INR (j + 1) * f)) time omagnitude)
      as [[a b] c] eqn:E.
    rewrite IH. unfold harmonic_amplitude, harmonic_phase, harmonic_model, harmonic_fit.
    rewrite <- !app_assoc. reflexivity.
Qed.

Lemma fit_slot_populated time f s :
  fit_slot time (Some f) s = Ok (populated time f s).
Proof. unfold fit_slot. rewrite harmonics_closed_form. reflexivity. Qed.

(** C1, as the code has it: within a slot, each of the four harmonics
    is fitted by least squares to the one series the slot started from
    (the residual before the slot's first harmonic), not to a residual
    that already lacks the earlier harmonics; the four fitted models are
    then taken off the residual one after the other, in the order
    j = 1, 2, 3, 4. *)
Theorem fit_slot_fits_slot_start time f s :
  let y := magnitude s in
  let fitted j := harmonic_model time y f j in
  fit_slot time (Some f) s =
  Ok (mkState
        (Np.sub (Np.sub (Np.sub (Np.sub y (fitted 0%nat)) (fitted 1%nat))
           (fitted 2%nat)) (fitted 3%nat))
        (A s ++ [[harmonic_amplitude time y f 0; harmonic_amplitude time y f 1;
                  harmonic_amplitude time y f 2; harmonic_amplitude time y f 3]])
        (PH s ++ [[harmonic_phase time y f 0; harmonic_phase time y f 1;
                   harmonic_phase time y f 2; harmonic_phase time y f 3]])
        (freq s ++ [Some f])).
Proof. unfold fit_slot. rewrite harmonics_closed_form. reflexivity. Qed.

(** ** A missing fundamental frequency *)

Lemma harmonics_None j js time omagnitude Atemp PHtemp magnitude :
  harmonics (j :: js) None time omagnitude Atemp PHtemp magnitude =
  Raise TypeError.
Proof. reflexivity. Qed.

Lemma fit_slot_None time s : fit_slot time None s = Raise TypeError.
Proof. reflexivity. Qed.

Lemma fit_slot_Ok time fundamental_Freq s s' :
  fit_slot time fundamental_Freq s = Ok s' ->
  exists f, fundamental_Freq = Some f /\ s' = populated time f s.
Proof.
  destruct fundamental_Freq as [f |].
  - rewrite fit_slot_populated. intros [= <-]. eauto.
  - rewrite fit_slot_None. discriminate.
Qed.

Lemma get_highest_frequency_no_peak time magnitude lscargle_kwds
    frequency power fmax :
  lscargle time magnitude lscargle_kwds = (frequency, power, fmax) ->
  find_peaks power = [] ->
  get_highest_frequency time magnitude lscargle_kwds = Ok no_peak.
Proof.
  intros Hls Hpeaks. unfold get_highest_frequency.
  rewrite Hls, Hpeaks. reflexivity.
Qed.

Lemma initial_slot_no_peak time lscargle_kwds s frequency power fmax :
  lscargle time (magnitude s) lscargle_kwds = (frequency, power, fmax) ->
  find_peaks power = [] ->
  initial_slot time lscargle_kwds s = Raise TypeError.
Proof.
  intros Hls Hpeaks. unfold initial_slot.
  rewrite (get_highest_frequency_no_peak _ _ _ _ _ _ Hls Hpeaks).
  reflexivity.
Qed.

Lemma initial_loop_raises time lscargle_kwds e k : forall n s s',
  (k < n)%nat ->
  initial_loop k time lscargle_kwds s = Ok s' ->
  initial_slot time lscargle_kwds s' = Raise e ->
  initial_loop n time lscargle_kwds s = Raise e.
Proof.
  induction k as [| k IH]; intros n s s' Hlt Hloop Hslot.
  - injection Hloop as <-. destruct n as [| n]; [lia |].
    simpl. rewrite Hslot. reflexivity.
  - destruct n as [| n]; [lia |]. simpl in *.
    apply bind_Ok in Hloop. destruct Hloop as (s1 & Hs1 & Hloop).
    rewrite Hs1. simpl. apply (IH n s1 s'); [lia | assumption | assumption].
Qed.

(** C2, as the code has it: when the periodogram of the residual has
    no local maximum in one of the three unconditional iterations (the
    iteration after [k] completed ones, k < 3), the search returns
    [None] and the harmonic fit multiplies it by [j + 1]: [_components],
    and [fit] with it, raise [TypeError]. *)
Theorem no_peak_raises_TypeError magnitude0 time lscargle_kwds
    snr_threshold window_size m k s frequency power fmax :
  Np.min time = Ok m ->
  (k < 3)%nat ->
  initial_loop k (map (fun t => t - m) time) lscargle_kwds
    (mkState magnitude0 [] [] []) = Ok s ->
  lscargle (map (fun t => t - m) time) (magnitude s) lscargle_kwds =
    (frequency, power, fmax) ->
  find_peaks power = [] ->
  _components magnitude0 time lscargle_kwds snr_threshold window_size =
    Raise TypeError /\
  fit magnitude0 time lscargle_kwds = Raise TypeError.
Proof.
  intros Hmin Hk Hloop Hls Hpeaks.
  assert (Hstate : forall t w,
    _components_state magnitude0 time lscargle_kwds t w = Raise TypeError).
  { intros t w. unfold _components_state. rewrite Hmin. simpl mbind.
    apply bind_Raise.
    apply (initial_loop_raises _ _ _ k 3%nat _ s Hk Hloop).
    apply (initial_slot_no_peak _ _ _ _ _ _ Hls Hpeaks). }
  assert (Hcomp : forall t w,
    _components magnitude0 time lscargle_kwds t w = Raise TypeError).
  { intros t w. unfold _components. apply bind_Raise, Hstate. }
  split; [apply Hcomp |].
  unfold fit. apply bind_Raise, Hcomp.
Qed.


(** ** The gated search of the extension *)

Lemma apply_range_None frequency power :
  apply_range None frequency power = Ok (frequency, power).
Proof. reflexivity. Qed.

Lemma select_between lo hi (l : list R) x :
  x ∈ Np.select l (between_mask lo hi l) -> lo <= x <= hi.
Proof.
  induction l as [| y l IH]; simpl; [intros H; inversion H |].
  destruct (Rleb lo y && Rleb y hi) eqn:E; [| exact IH].
  intros H. apply elem_of_cons in H as [-> | H]; [| auto].
  apply between_spec, E.
Qed.

Lemma apply_range_Some lo hi frequency power frequency' power' :
  apply_range (Some [lo; hi]) frequency power = Ok (frequency', power') ->
  frequency' = Np.select frequency (between_mask lo hi frequency) /\
  power' = Np.select power (between_mask lo hi frequency) /\
  Forall (fun f => lo <= f <= hi) frequency'.
Proof.
  unfold apply_range. simpl. unfold Np.bool_index.
  destruct (length frequency =? length (between_mask lo hi frequency))%nat;
    simpl; [| discriminate].
  destruct (length power =? length (between_mask lo hi frequency))%nat;
    simpl; [| discriminate].
  intros [= <- <-]. repeat split.
  apply Forall_forall. intros x Hx. eapply select_between, Hx.
Qed.

Lemma get_significant_frequency_in_range time magnitude lscargle_kwds
    snr_threshold window_size lo hi f power idx :
  get_significant_frequency time magnitude lscargle_kwds snr_threshold
    window_size (Some [lo; hi]) = Ok (Some f, power, idx) ->
  lo <= f <= hi.
Proof.
  unfold get_significant_frequency.
  destruct (lscargle time magnitude lscargle_kwds) as [[frequency0 power0] fm].
  intros H. apply bind_Ok in H. destruct H as ([frequency' power'] & Hr & H).
  apply apply_range_Some in Hr. destruct Hr as (_ & _ & Hall).
  destruct (length (find_peaks power') =? 0)%nat; [discriminate |].
  apply bind_Ok in H. destruct H as (i & _ & H).
  apply bind_Ok in H. destruct H as (snr & _ & H).
  destruct (snr_ltb snr snr_threshold); [discriminate |].
  apply bind_Ok in H. destruct H as (x & Hx & H).
  injection H as -> _ _. apply index_Ok in Hx.
  rewrite Forall_forall in Hall. apply Hall.
  eapply list_elem_of_lookup_2, Hx.
Qed.

Lemma get_significant_frequency_no_peak time magnitude lscargle_kwds
    snr_threshold window_size freq_range frequency0 power0 fm frequency power :
  lscargle time magnitude lscargle_kwds = (frequency0, power0, fm) ->
  apply_range freq_range frequency0 power0 = Ok (frequency, power) ->
  find_peaks power = [] ->
  get_significant_frequency time magnitude lscargle_kwds snr_threshold
    window_size freq_range = Ok no_peak.
Proof.
  intros Hls Hr Hpeaks. unfold get_significant_frequency.
  rewrite Hls, Hr. simpl. rewrite Hpeaks. reflexivity.
Qed.

Lemma get_significant_frequency_low_snr time magnitude lscargle_kwds
    snr_threshold window_size freq_range frequency0 power0 fm frequency power
    idx snr :
  lscargle time magnitude lscargle_kwds = (frequency0, power0, fm) ->
  apply_range freq_range frequency0 power0 = Ok (frequency, power) ->
  find_peaks power <> [] ->
  highest_peak power (find_peaks power) = Ok idx ->
  calculate_snr frequency power idx window_size = Ok snr ->
  snr_ltb snr snr_threshold = true ->
  get_significant_frequency time magnitude lscargle_kwds snr_threshold
    window_size freq_range = Ok no_peak.
Proof.
  intros Hls Hr Hpeaks Hidx Hsnr Hlow. unfold get_significant_frequency.
  rewrite Hls, Hr. simpl.
  destruct (find_peaks power) as [| p peaks] eqn:E; [congruence |].
  simpl length. simpl Nat.eqb. cbv iota.
  rewrite Hidx. simpl. rewrite Hsnr. simpl. rewrite Hlow. reflexivity.
Qed.

(** ** The extension loop *)

Lemma extension_slot_break time lscargle_kwds snr_threshold window_size
    freq_range s :
  get_significant_frequency time (magnitude s) lscargle_kwds snr_threshold
    window_size freq_range = Ok no_peak ->
  extension_slot time lscargle_kwds snr_threshold window_size freq_range s =
    Ok None.
Proof. intros H. unfold extension_slot. rewrite H. reflexivity. Qed.

Lemma extension_loop_break time lscargle_kwds snr_threshold window_size
    freq_range s n :
  extension_slot time lscargle_kwds snr_threshold window_size freq_range s =
    Ok None ->
  extension_loop (S n) time lscargle_kwds snr_threshold window_size
    freq_range s = Ok s.
Proof. intros H. simpl. rewrite H. reflexivity. Qed.

Lemma extension_loop_break_second time lscargle_kwds snr_threshold
    window_size freq_range s0 s :
  extension_slot time lscargle_kwds snr_threshold window_size freq_range s0 =
    Ok (Some s) ->
  extension_slot time lscargle_kwds snr_threshold window_size freq_range s =
    Ok None ->
  extension_loop 2 time lscargle_kwds snr_threshold window_size
    freq_range s0 = Ok s.
Proof. intros H0 H. simpl. rewrite H0. simpl. rewrite H. reflexivity. Qed.

Lemma extension_slot_Some time lscargle_kwds snr_threshold window_size
    freq_range s s' :
  extension_slot time lscargle_kwds snr_threshold window_size freq_range s =
    Ok (Some s') ->
  exists f power idx,
    get_significant_frequency time (magnitude s) lscargle_kwds snr_threshold
      window_size freq_range = Ok (Some f, power, idx) /\
    fit_slot time (Some f) s = Ok s'.
Proof.
  unfold extension_slot. intros H.
  apply bind_Ok in H. destruct H as ([[fF power] idx] & Hg & H).
  destruct fF as [f |]; [| discriminate].
  apply bind_Ok in H. destruct H as (s1 & Hs1 & H).
  injection H as <-. eauto.
Qed.

(** C8: in the extension, when the selected candidate (the highest
    peak [idx] of the possibly masked periodogram) has a signal-to-noise
    ratio below the threshold, the search returns no frequency, the slot
    is abandoned and the loop stops at once, whatever the number of
    iterations left; the state, with every slot populated before, is
    returned unchanged, also when this happens in the second iteration. *)
Theorem low_snr_stops_extension time lscargle_kwds snr_threshold window_size
    freq_range s frequency0 power0 fm frequency power idx snr :
  lscargle time (magnitude s) lscargle_kwds = (frequency0, power0, fm) ->
  apply_range freq_range frequency0 power0 = Ok (frequency, power) ->
  find_peaks power <> [] ->
  highest_peak power (find_peaks power) = Ok idx ->
  calculate_snr frequency power idx window_size = Ok snr ->
  snr_ltb snr snr_threshold = true ->
  get_significant_frequency time (magnitude s) lscargle_kwds snr_threshold
    window_size freq_range = Ok no_peak /\
  extension_slot time lscargle_kwds snr_threshold window_size freq_range s =
    Ok None /\
  (forall n, extension_loop (S n) time lscargle_kwds snr_threshold
               window_size freq_range s = Ok s) /\
  (forall s0,
     extension_slot time lscargle_kwds snr_threshold window_size freq_range
       s0 = Ok (Some s) ->
     extension_loop 2 time lscargle_kwds snr_threshold window_size
       freq_range s0 = Ok s).
Proof.
  intros Hls Hr Hpeaks Hidx Hsnr Hlow.
  pose proof (get_significant_frequency_low_snr _ _ _ _ _ _ _ _ _ _ _ _ _
                Hls Hr Hpeaks Hidx Hsnr Hlow) as Hg.
  pose proof (extension_slot_break _ _ _ _ _ _ Hg) as Hslot.
  repeat split; [exact Hg | exact Hslot | |].
  - intros n. apply extension_loop_break, Hslot.
  - intros s0 H0. eapply extension_loop_break_second; eassumption.
Qed.

(** C10: in the extension, a periodogram (masked to the range, when
    there is one) without any local maximum has the same effect as a
    low signal-to-noise ratio: the search returns the same
    [(None, None, None)], the loop stops at once and the state is
    returned unchanged, the slots still to be searched staying absent. *)
Theorem no_peak_stops_extension time lscargle_kwds snr_threshold window_size
    freq_range s frequency0 power0 fm frequency power :
  lscargle time (magnitude s) lscargle_kwds = (frequency0, power0, fm) ->
  apply_range freq_range frequency0 power0 = Ok (frequency, power) ->
  find_peaks power = [] ->
  get_significant_frequency time (magnitude s) lscargle_kwds snr_threshold
    window_size freq_range = Ok no_peak /\
  extension_slot time lscargle_kwds snr_threshold window_size freq_range s =
    Ok None /\
  (forall n, extension_loop (S n) time lscargle_kwds snr_threshold
               window_size freq_range s = Ok s) /\
  (forall s0,
     extension_slot time lscargle_kwds snr_threshold window_size freq_range
       s0 = Ok (Some s) ->
     extension_loop 2 time lscargle_kwds snr_threshold window_size
       freq_range s0 = Ok s).
Proof.
  intros Hls Hr Hpeaks.
  pose proof (get_significant_frequency_no_peak _ _ _ snr_threshold
                window_size _ _ _ _ _ _ Hls Hr Hpeaks) as Hg.
  pose proof (extension_slot_break _ _ _ _ _ _ Hg) as Hslot.
  repeat split; [exact Hg | exact Hslot | |].
  - intros n. apply extension_loop_break, Hslot.
  - intros s0 H0. eapply extension_loop_break_second; eassumption.
Qed.


(** ** Shape of the state *)

Lemma fit_slot_well_formed time fundamental_Freq s s' :
  well_formed time s ->
  fit_slot time fundamental_Freq s = Ok s' ->
  well_formed time s' /\
  length (freq s') = S (length (freq s)) /\
  exists f, freq s' = freq s ++ [Some f].
Proof.
  intros [HA HP] H. apply fit_slot_Ok in H. destruct H as (f & -> & ->).
  unfold well_formed. simpl. repeat split.
  - apply Forall2_app; [exact HA |]. constructor; [| constructor].
    exists f, (magnitude s). split; reflexivity.
  - apply Forall2_app; [exact HP |]. constructor; [| constructor].
    exists f, (magnitude s). split; reflexivity.
  - rewrite length_app. simpl. lia.
  - eauto.
Qed.

Lemma initial_loop_well_formed time lscargle_kwds n : forall s s',
  well_formed time s ->
  initial_loop n time lscargle_kwds s = Ok s' ->
  well_formed time s' /\ length (freq s') = (n + length (freq s))%nat.
Proof.
  induction n as [| n IH]; intros s s' Hwf H; simpl in H.
  - injection H as <-. split; [exact Hwf | reflexivity].
  - apply bind_Ok in H. destruct H as (s1 & Hs1 & H).
    unfold initial_slot in Hs1. apply bind_Ok in Hs1.
    destruct Hs1 as ([[fF power] idx] & _ & Hs1).
    destruct (fit_slot_well_formed _ _ _ _ Hwf Hs1) as (Hwf1 & Hlen & _).
    destruct (IH _ _ Hwf1 H) as (Hwf' & Hlen').
    split; [exact Hwf' | lia].
Qed.

Lemma extension_loop_well_formed time lscargle_kwds snr_threshold window_size
    freq_range n : forall s s',
  well_formed time s ->
  extension_loop n time lscargle_kwds snr_threshold window_size freq_range s =
    Ok s' ->
  well_formed time s' /\
  (length (freq s) <= length (freq s') <= n + length (freq s))%nat.
Proof.
  induction n as [| n IH]; intros s s' Hwf H; simpl in H.
  - injection H as <-. split; [exact Hwf | lia].
  - apply bind_Ok in H. destruct H as ([s1 |] & Hs1 & H).
    + apply extension_slot_Some in Hs1. destruct Hs1 as (f & pw & idx & _ & Hs1).
      destruct (fit_slot_well_formed _ _ _ _ Hwf Hs1) as (Hwf1 & Hlen & _).
      destruct (IH _ _ Hwf1 H) as (Hwf' & Hlen').
      split; [exact Hwf' | lia].
    + injection H as <-. split; [exact Hwf | lia].
Qed.

(** With a range, the frequencies the extension appends lie in it. *)
Lemma extension_loop_in_range time lscargle_kwds snr_threshold window_size
    lo hi n : forall s s',
  extension_loop n time lscargle_kwds snr_threshold window_size
    (Some [lo; hi]) s = Ok s' ->
  exists ext,
    freq s' = freq s ++ map Some ext /\ Forall (fun f => lo <= f <= hi) ext.
Proof.
  induction n as [| n IH]; intros s s' H; simpl in H.
  - injection H as <-. exists []. rewrite app_nil_r. split; constructor.
  - apply bind_Ok in H. destruct H as ([s1 |] & Hs1 & H).
    + apply extension_slot_Some in Hs1.
      destruct Hs1 as (f & pw & idx & Hg & Hs1).
      apply get_significant_frequency_in_range in Hg.
      apply fit_slot_Ok in Hs1. destruct Hs1 as (f' & [= <-] & Hs1).
      destruct (IH _ _ H) as (ext & Hext & Hall).
      exists (f :: ext). split; [| constructor; assumption].
      rewrite Hext, Hs1. simpl. rewrite <- app_assoc. reflexivity.
    + injection H as <-. exists []. rewrite app_nil_r. split; constructor.
Qed.

Lemma any_between_spec lo hi (l : list (option R)) b :
  any_between lo hi l = Ok b ->
  (b = true <-> exists f, Some f ∈ l /\ lo <= f <= hi).
Proof.
  induction l as [| [f |] l IH]; simpl; intros H.
  - injection H as <-. split; [discriminate |].
    intros (f & Hf & _). inversion Hf.
  - destruct (Rleb lo f && Rleb f hi) eqn:E.
    + injection H as <-. split; [| reflexivity]. intros _.
      exists f. split; [left | apply between_spec, E].
    + rewrite (IH H). split.
      * intros (x & Hx & Hr). exists x. split; [right; exact Hx | exact Hr].
      * intros (x & Hx & Hr). apply elem_of_cons in Hx as [[= ->] | Hx].
        -- apply between_spec in Hr. congruence.
        -- eauto.
  - discriminate.
Qed.

Lemma scale_rows_spec PH0 : forall sPH,
  scale_rows PH0 = Ok sPH ->
  Forall2 (fun raw row =>
             exists c, raw !! 0%nat = Some c /\ row = map (fun x => x - c) raw)
    PH0 sPH.
Proof.
  induction PH0 as [| raw PH0 IH]; intros sPH H; simpl in H.
  - injection H as <-. constructor.
  - apply bind_Ok in H. destruct H as (c & Hc & H).
    apply bind_Ok in H. destruct H as (rows & Hrows & H).
    injection H as <-. constructor; [| auto].
    exists c. split; [apply index_Ok, Hc | reflexivity].
Qed.

Lemma scale_phases_spec PH0 sPH :
  scale_phases PH0 = Ok sPH ->
  Forall2 (fun raw row =>
             exists c, raw !! 0%nat = Some c /\ row = map (fun x => x - c) raw)
    PH0 sPH.
Proof.
  destruct PH0 as [| raw PH0]; [discriminate |].
  apply scale_rows_spec.
Qed.

Lemma scale_rows_total time PH0 (fs : list (option R)) :
  Forall2 (slot_phases time) PH0 fs ->
  exists sPH, scale_rows PH0 = Ok sPH.
Proof.
  induction 1 as [| raw f PH0 fs (x & y & _ & ->) _ (sPH & IH)]; simpl.
  - eauto.
  - rewrite IH. simpl. eauto.
Qed.

Lemma scale_phases_total time PH0 (fs : list (option R)) :
  Forall2 (slot_phases time) PH0 fs ->
  fs <> [] ->
  exists sPH, scale_phases PH0 = Ok sPH.
Proof.
  intros H Hne. destruct H as [| raw f PH0 fs Hraw H]; [congruence |].
  apply (scale_rows_total time (raw :: PH0) (f :: fs)).
  constructor; assumption.
Qed.

Lemma components_state_inv magnitude0 time lscargle_kwds snr_threshold
    window_size s :
  _components_state magnitude0 time lscargle_kwds snr_threshold window_size =
    Ok s ->
  exists m s3 r1 r2,
    Np.min time = Ok m /\
    initial_loop 3 (map (fun t => t - m) time) lscargle_kwds
      (mkState magnitude0 [] [] []) = Ok s3 /\
    well_formed (map (fun t => t - m) time) s3 /\
    length (freq s3) = 3%nat /\
    any_between 0.4 3.3 (freq s3) = Ok r1 /\
    any_between 3.3 27.4 (freq s3) = Ok r2 /\
    (if r1 && r2 then
       extension_loop 2 (map (fun t => t - m) time) lscargle_kwds
         snr_threshold window_size None s3
     else if negb r1 then
       extension_loop 2 (map (fun t => t - m) time) lscargle_kwds
         snr_threshold window_size (Some range1) s3
     else if negb r2 then
       extension_loop 2 (map (fun t => t - m) time) lscargle_kwds
         snr_threshold window_size (Some range2) s3
     else Ok s3) = Ok s.
Proof.
  unfold _components_state. intros H.
  apply bind_Ok in H. destruct H as (m & Hm & H).
  apply bind_Ok in H. destruct H as (s3 & Hs3 & H).
  apply bind_Ok in H. destruct H as (r1 & Hr1 & H).
  apply bind_Ok in H. destruct H as (r2 & Hr2 & H).
  exists m, s3, r1, r2.
  assert (Hwf0 : well_formed (map (fun t => t - m) time)
                   (mkState magnitude0 [] [] [])).
  { split; constructor. }
  destruct (initial_loop_well_formed _ _ _ _ _ Hwf0 Hs3) as (Hwf & Hlen).
  simpl in Hlen. repeat split; try assumption.
  apply Hwf. apply Hwf.
Qed.

Lemma components_state_well_formed magnitude0 time lscargle_kwds
    snr_threshold window_size s :
  _components_state magnitude0 time lscargle_kwds snr_threshold window_size =
    Ok s ->
  exists m, Np.min time = Ok m /\
    well_formed (map (fun t => t - m) time) s /\
    (3 <= length (freq s) <= 5)%nat.
Proof.
  intros H. apply components_state_inv in H.
  destruct H as (m & s3 & r1 & r2 & Hm & _ & Hwf & Hlen & _ & _ & H).
  exists m. split; [exact Hm |].
  destruct (r1 && r2); [| destruct (negb r1); [| destruct (negb r2)]].
  - apply (extension_loop_well_formed _ _ _ _ _ _ _ _ Hwf) in H.
    destruct H as (Hwf' & Hl). split; [exact Hwf' | lia].
  - apply (extension_loop_well_formed _ _ _ _ _ _ _ _ Hwf) in H.
    destruct H as (Hwf' & Hl). split; [exact Hwf' | lia].
  - apply (extension_loop_well_formed _ _ _ _ _ _ _ _ Hwf) in H.
    destruct H as (Hwf' & Hl). split; [exact Hwf' | lia].
  - injection H as <-. split; [exact Hwf | lia].
Qed.

Lemma components_inv magnitude0 time lscargle_kwds snr_threshold window_size
    A0 sPH freq0 :
  _components magnitude0 time lscargle_kwds snr_threshold window_size =
    Ok (A0, sPH, freq0) ->
  exists s,
    _components_state magnitude0 time lscargle_kwds snr_threshold
      window_size = Ok s /\
    scale_phases (PH s) = Ok sPH /\ A0 = A s /\ freq0 = freq s.
Proof.
  unfold _components. intros H.
  apply bind_Ok in H. destruct H as (s & Hs & H).
  apply bind_Ok in H. destruct H as (sPH' & HsPH & H).
  injection H as <- <- <-. eauto.
Qed.


(** The extension only appends: the slots it starts from stay. *)
Lemma extension_loop_extends time lscargle_kwds snr_threshold window_size
    freq_range n : forall s s',
  extension_loop n time lscargle_kwds snr_threshold window_size freq_range s =
    Ok s' ->
  exists a p f,
    A s' = A s ++ a /\ PH s' = PH s ++ p /\ freq s' = freq s ++ f.
Proof.
  induction n as [| n IH]; intros s s' H; simpl in H.
  - injection H as <-. exists [], [], []. rewrite !app_nil_r. auto.
  - apply bind_Ok in H. destruct H as ([s1 |] & Hs1 & H).
    + apply extension_slot_Some in Hs1.
      destruct Hs1 as (f & pw & idx & _ & Hs1).
      apply fit_slot_Ok in Hs1. destruct Hs1 as (f' & _ & Hs1).
      destruct (IH _ _ H) as (a & p & fs & Ha & Hp & Hf).
      rewrite Ha, Hp, Hf, Hs1. simpl. rewrite <- !app_assoc.
      do 3 eexists. repeat split; reflexivity.
    + injection H as <-. exists [], [], []. rewrite !app_nil_r. auto.
Qed.

(** ** The range check *)

(** C6: after the three unconditional slots, [r1] and [r2] tell
    whether one of the three frequencies lies in [0.4, 3.3] and in
    [3.3, 27.4] (bounds included).  When both do, the two extension
    searches run on the whole periodogram.  When the first range is
    missing they run with [range1], otherwise, when the second is
    missing, with [range2]: a search with a range keeps only the bins
    whose frequency lies in it, and every frequency of an extension slot
    (position 3 or 4) lies in the range searched. *)
Theorem extension_targets_missing_range magnitude0 time lscargle_kwds
    snr_threshold window_size A0 sPH freq0 :
  _components magnitude0 time lscargle_kwds snr_threshold window_size =
    Ok (A0, sPH, freq0) ->
  exists m s3 r1 r2 s,
    let time' := map (fun t => t - m) time in
    Np.min time = Ok m /\
    initial_loop 3 time' lscargle_kwds (mkState magnitude0 [] [] []) = Ok s3 /\
    length (freq s3) = 3%nat /\
    (r1 = true <-> exists f, Some f ∈ freq s3 /\ 0.4 <= f <= 3.3) /\
    (r2 = true <-> exists f, Some f ∈ freq s3 /\ 3.3 <= f <= 27.4) /\
    freq0 = freq s /\
    (exists ext, freq0 = freq s3 ++ ext) /\
    (r1 = true -> r2 = true ->
     extension_loop 2 time' lscargle_kwds snr_threshold window_size None s3 =
       Ok s) /\
    (r1 = false ->
     extension_loop 2 time' lscargle_kwds snr_threshold window_size
       (Some range1) s3 = Ok s /\
     forall i f, (3 <= i)%nat -> freq0 !! i = Some (Some f) ->
                 0.4 <= f <= 3.3) /\
    (r1 = true -> r2 = false ->
     extension_loop 2 time' lscargle_kwds snr_threshold window_size
       (Some range2) s3 = Ok s /\
     forall i f, (3 <= i)%nat -> freq0 !! i = Some (Some f) ->
                 3.3 <= f <= 27.4) /\
    (forall frequency power,
       apply_range None frequency power = Ok (frequency, power)) /\
    (forall lo hi frequency power frequency' power',
       apply_range (Some [lo; hi]) frequency power = Ok (frequency', power') ->
       Forall (fun f => lo <= f <= hi) frequency').
Proof.
  intros H. apply components_inv in H.
  destruct H as (s & Hs & _ & _ & ->).
  apply components_state_inv in Hs.
  destruct Hs as (m & s3 & r1 & r2 & Hm & Hs3 & _ & Hlen & Hr1 & Hr2 & H).
  exists m, s3, r1, r2, s. cbv zeta.
  assert (Hext : forall fr,
    extension_loop 2 (map (fun t => t - m) time) lscargle_kwds snr_threshold
      window_size (Some fr) s3 = Ok s ->
    forall lo hi, fr = [lo; hi] ->
    forall i f, (3 <= i)%nat -> freq s !! i = Some (Some f) -> lo <= f <= hi).
  { intros fr Hl lo hi -> i f Hi Hf.
    apply extension_loop_in_range in Hl. destruct Hl as (ext & Hfs & Hall).
    rewrite Hfs in Hf. rewrite lookup_app_r in Hf by lia.
    rewrite list_lookup_fmap in Hf.
    destruct (ext !! (i - length (freq s3))%nat) as [x |] eqn:E;
      [| discriminate].
    injection Hf as ->. rewrite Forall_forall in Hall. apply Hall.
    eapply list_elem_of_lookup_2, E. }
  split; [exact Hm |]. split; [exact Hs3 |]. split; [exact Hlen |].
  split; [apply (any_between_spec _ _ _ _ Hr1) |].
  split; [apply (any_between_spec _ _ _ _ Hr2) |].
  split; [reflexivity |].
  split.
  { destruct (r1 && r2); [| destruct (negb r1); [| destruct (negb r2)]].
    - apply extension_loop_extends in H. destruct H as (a & p & f & _ & _ & Hf). eauto.
    - apply extension_loop_extends in H. destruct H as (a & p & f & _ & _ & Hf). eauto.
    - apply extension_loop_extends in H. destruct H as (a & p & f & _ & _ & Hf). eauto.
    - injection H as <-. exists []. rewrite app_nil_r. reflexivity. }
  split; [intros -> ->; exact H |].
  split.
  { intros ->. simpl in H. split; [exact H |].
    apply (Hext _ H 0.4 3.3). reflexivity. }
  split.
  { intros -> ->. simpl in H. split; [exact H |].
    apply (Hext _ H 3.3 27.4). reflexivity. }
  split; [intros; apply apply_range_None |].
  intros lo hi frequency power frequency' power' Hr.
  apply apply_range_Some in Hr. apply Hr.
Qed.


(** ** The signal-to-noise ratio *)

Lemma between_mask_length lo hi frequency :
  length (between_mask lo hi frequency) = length frequency.
Proof. unfold between_mask. apply length_map. Qed.

(** Past the peak, the noise is the whole window. *)
Lemma window_noise_past lo hi idx : forall frequency power k,
  (idx < k)%nat ->
  length frequency = length power ->
  window_noise k idx lo hi frequency power =
  Np.select power (between_mask lo hi frequency).
Proof.
  induction frequency as [| f frequency IH]; intros [| p power] k Hk Hlen;
    try discriminate; [reflexivity |].
  simpl. replace (k =? idx)%nat with false
    by (symmetry; apply Nat.eqb_neq; lia).
  simpl. injection Hlen as Hlen.
  rewrite (IH power (S k)) by (lia || assumption). reflexivity.
Qed.

(** Deleting the first bin of the window whose frequency is that of
    the peak deletes the peak, when no frequency occurs twice. *)
Lemma window_without_peak lo hi fmax : forall frequency power idx k0 i,
  length frequency = length power ->
  NoDup frequency ->
  frequency !! idx = Some fmax ->
  lo <= fmax <= hi ->
  exists k,
    Np.first_true i
      (map (fun f => Reqb f fmax)
         (Np.select frequency (between_mask lo hi frequency))) =
      Some (i + k)%nat /\
    (k < length (Np.select power (between_mask lo hi frequency)))%nat /\
    take k (Np.select power (between_mask lo hi frequency)) ++
    drop (S k) (Np.select power (between_mask lo hi frequency)) =
    window_noise k0 (k0 + idx) lo hi frequency power.
Proof.
  induction frequency as [| f frequency IH];
    intros [| p power] idx k0 i Hlen Hnd Hidx Hin; try discriminate.
  injection Hlen as Hlen. apply NoDup_cons in Hnd as [Hf Hnd].
  destruct idx as [| idx]; simpl in Hidx.
  - injection Hidx as ->. exists 0%nat. simpl.
    rewrite (proj2 (between_spec lo hi fmax) Hin). simpl.
    rewrite Reqb_true by reflexivity.
    rewrite !Nat.add_0_r, Nat.eqb_refl. simpl.
    rewrite window_noise_past by (lia || assumption).
    repeat split; lia.
  - assert (Hne : f <> fmax).
    { intros ->. apply Hf. eapply list_elem_of_lookup_2, Hidx. }
    simpl. replace (k0 =? k0 + S idx)%nat with false
      by (symmetry; apply Nat.eqb_neq; lia).
    simpl. destruct (Rleb lo f && Rleb f hi).
    + destruct (IH power idx (S k0) (S i) Hlen Hnd Hidx Hin)
        as (k & Hk & Hlt & Heq).
      exists (S k). simpl. rewrite (Reqb_false _ _ Hne).
      rewrite Hk. replace (S k0 + idx)%nat with (k0 + S idx)%nat in Heq by lia.
      rewrite Heq. repeat split; [f_equal; lia | lia].
    + destruct (IH power idx (S k0) i Hlen Hnd Hidx Hin)
        as (k & Hk & Hlt & Heq).
      exists k. replace (S k0 + idx)%nat with (k0 + S idx)%nat in Heq by lia.
      auto.
Qed.

(** C5: on a periodogram whose bins have distinct frequencies (and
    as many powers as frequencies), with a window that is not negative,
    the ratio of the candidate [idx] is its power divided by the mean
    power of the other bins whose frequency is within [window_size] of
    the candidate's, bounds included.  When there is no such bin the
    ratio is infinite, and an infinite ratio is below no threshold. *)
Theorem calculate_snr_spec frequency power idx window_size fmax peak_power :
  length frequency = length power ->
  NoDup frequency ->
  frequency !! idx = Some fmax ->
  power !! idx = Some peak_power ->
  0 <= window_size ->
  let noise :=
    window_noise 0 idx (fmax - window_size) (fmax + window_size)
      frequency power in
  calculate_snr frequency power idx window_size =
    Ok (match noise with
        | [] => PInf
        | _ :: _ => Finite (peak_power / Np.mean noise)
        end) /\
  (forall snr_threshold, snr_ltb PInf snr_threshold = false).
Proof.
  intros Hlen Hnd Hf Hp Hw noise. split; [| reflexivity].
  unfold calculate_snr.
  rewrite (proj2 (index_Ok _ _ _) Hp). simpl.
  rewrite (proj2 (index_Ok _ _ _) Hf). simpl.
  unfold Np.bool_index. rewrite between_mask_length.
  rewrite <- Hlen, Nat.eqb_refl. simpl.
  destruct (window_without_peak (fmax - window_size) (fmax + window_size)
              fmax frequency power idx 0%nat 0%nat Hlen Hnd Hf)
    as (k & Hk & Hlt & Heq); [lra |].
  simpl in Hk, Heq. fold noise in Heq.
  unfold Np.argmax_bool.
  destruct (map (fun f => Reqb f fmax)
              (Np.select frequency
                 (between_mask (fmax - window_size) (fmax + window_size)
                    frequency))) as [| b l] eqn:E; [discriminate |].
  rewrite Hk. simpl. unfold Np.delete.
  rewrite (proj2 (Nat.ltb_lt _ _) Hlt). simpl. rewrite Heq.
  destruct noise; reflexivity.
Qed.


(** ** The feature dictionary *)

Lemma items_keys A0 sPH freq0 : (items A0 sPH freq0).*1 = (items [] [] []).*1.
Proof. reflexivity. Qed.

Lemma keys_NoDup : NoDup (items [] [] []).*1.
Proof. apply (bool_decide_unpack _). exact I. Qed.

Lemma keys_features :
  Forall (fun k => k ∈ features) (items [] [] []).*1 /\
  Forall (fun k => k ∈ (items [] [] []).*1) features.
Proof. split; apply (bool_decide_unpack _); exact I. Qed.

Lemma items_lookup A0 sPH freq0 k v :
  (k, v) ∈ items A0 sPH freq0 ->
  (list_to_map (reverse (items A0 sPH freq0)) : gmap string (option R)) !! k =
    Some v.
Proof.
  intros H. apply elem_of_list_to_map_1.
  - rewrite fmap_reverse, reverse_Permutation, items_keys.
    apply keys_NoDup.
  - apply elem_of_reverse, H.
Qed.

Lemma items_dom A0 sPH freq0 :
  dom (list_to_map (reverse (items A0 sPH freq0)) : gmap string (option R)) =
    list_to_set features.
Proof.
  rewrite dom_list_to_map_L, fmap_reverse, items_keys.
  apply set_eq. intros k.
  rewrite !elem_of_list_to_set, elem_of_reverse.
  destruct keys_features as [H1 H2]. rewrite Forall_forall in H1, H2.
  split; auto.
Qed.

Lemma items_amplitude A0 sPH freq0 i j :
  (i < 5)%nat -> (j < 4)%nat ->
  (amplitude_key i j, A0 !! i ≫= (.!! j)) ∈ items A0 sPH freq0.
Proof.
  intros Hi Hj.
  do 5 (destruct i as [| i];
        [do 4 (destruct j as [| j];
               [repeat first [apply list_elem_of_here
                             | apply list_elem_of_further] |]); lia |]).
  lia.
Qed.

Lemma items_rel_phase A0 sPH freq0 i j :
  (i < 5)%nat -> (j < 4)%nat ->
  (rel_phase_key i j, sPH !! i ≫= (.!! j)) ∈ items A0 sPH freq0.
Proof.
  intros Hi Hj.
  do 5 (destruct i as [| i];
        [do 4 (destruct j as [| j];
               [repeat first [apply list_elem_of_here
                             | apply list_elem_of_further] |]); lia |]).
  lia.
Qed.

Lemma items_period A0 sPH (freq0 : list (option R)) i :
  (1 <= i < 5)%nat ->
  (period_key i, f ← freq0 !! i; x ← f; Some (1 / x)) ∈ items A0 sPH freq0.
Proof.
  intros Hi.
  do 5 (destruct i as [| i];
        [try lia; repeat first [apply list_elem_of_here
                               | apply list_elem_of_further] |]).
  lia.
Qed.

Lemma items_no_first_period A0 sPH freq0 :
  (list_to_map (reverse (items A0 sPH freq0)) : gmap string (option R))
    !! period_key 0 = None.
Proof.
  apply not_elem_of_list_to_map_1.
  rewrite fmap_reverse, elem_of_reverse, items_keys.
  apply (bool_decide_unpack _). exact I.
Qed.

(** On a result of the right shape (as many rows as frequencies, four
    entries a row, no frequency missing) the assembly raises nothing and
    builds the dictionary of [items]. *)
Lemma fill_items A0 sPH (freq0 : list (option R)) :
  Forall2 (fun (row : list R) f => length row = 4%nat /\ f <> None) A0 freq0 ->
  Forall2 (fun (row : list R) (f : option R) => length row = 4%nat) sPH freq0 ->
  (length freq0 <= 5)%nat ->
  fill (seq 0 5) A0 sPH freq0 ∅ =
    Ok (list_to_map (reverse (items A0 sPH freq0))).
Proof.
  intros HA HP Hlen.
  destruct freq0 as [| f0 [| f1 [| f2 [| f3 [| f4 [| f5 freq0]]]]]];
    simpl in Hlen; try lia;
    repeat match goal with
    | H : Forall2 _ _ [] |- _ => apply Forall2_nil_inv_r in H; subst
    | H : Forall2 _ _ (_ :: _) |- _ =>
        apply Forall2_cons_inv_r in H as (? & ? & ? & H & ->)
    | H : _ /\ _ |- _ => destruct H
    end;
    repeat match goal with
    | H : length ?row = 4%nat |- _ =>
        destruct row as [| ? [| ? [| ? [| ? [| ? ?]]]]];
        try discriminate H; clear H
    | H : ?f <> None |- _ => destruct f; [clear H | congruence]
    end;
    reflexivity.
Qed.

Lemma Forall2_through {X Y Z : Type} (P : X -> Y -> Prop) (Q : X -> Z -> Prop)
    (l : list X) : forall (k : list Y) (m : list Z),
  Forall2 P l k -> Forall2 Q l m ->
  Forall2 (fun z y => exists x, P x y /\ Q x z) m k.
Proof.
  induction l as [| x l IH]; intros k m HP HQ.
  - apply Forall2_nil_inv_l in HP. apply Forall2_nil_inv_l in HQ.
    subst. constructor.
  - apply Forall2_cons_inv_l in HP as (y & k' & Hy & HP & ->).
    apply Forall2_cons_inv_l in HQ as (z & m' & Hz & HQ & ->).
    constructor; [eauto | auto].
Qed.

(** What [_components] returns, slot by slot. *)
Lemma components_shape magnitude0 time lscargle_kwds snr_threshold
    window_size A0 sPH freq0 :
  _components magnitude0 time lscargle_kwds snr_threshold window_size =
    Ok (A0, sPH, freq0) ->
  exists m s,
    Np.min time = Ok m /\
    _components_state magnitude0 time lscargle_kwds snr_threshold
      window_size = Ok s /\
    A0 = A s /\ freq0 = freq s /\
    (3 <= length freq0 <= 5)%nat /\
    Forall2 (slot_amplitudes (map (fun t => t - m) time)) A0 freq0 /\
    Forall2 (fun row f =>
               exists raw, slot_phases (map (fun t => t - m) time) raw f /\
                 exists c, raw !! 0%nat = Some c /\
                           row = map (fun x => x - c) raw)
      sPH freq0 /\
    Forall2 (fun raw row =>
               exists c, raw !! 0%nat = Some c /\ row = map (fun x => x - c) raw)
      (PH s) sPH.
Proof.
  intros H. apply components_inv in H.
  destruct H as (s & Hs & HsPH & -> & ->).
  destruct (components_state_well_formed _ _ _ _ _ _ Hs)
    as (m & Hm & [HA HP] & Hlen).
  apply scale_phases_spec in HsPH.
  exists m, s. repeat split; try assumption; try lia.
  apply (Forall2_through _ _ _ _ _ HP HsPH).
Qed.

Lemma fit_items magnitude0 time lscargle_kwds A0 sPH freq0 :
  _components magnitude0 time lscargle_kwds 3 0.5 = Ok (A0, sPH, freq0) ->
  fit magnitude0 time lscargle_kwds =
    Ok (list_to_map (reverse (items A0 sPH freq0))).
Proof.
  intros H. unfold fit. rewrite H. simpl mbind.
  apply components_shape in H.
  destruct H as (m & s & _ & _ & _ & _ & Hlen & HA & HP & _).
  apply fill_items; [| | lia].
  - eapply Forall2_impl; [exact HA |].
    intros row f (x & y & -> & ->). split; [reflexivity | discriminate].
  - eapply Forall2_impl; [exact HP |].
    intros row f (raw & (x & y & _ & ->) & c & _ & ->). reflexivity.
Qed.


Lemma Forall2_lookup_both {X Y : Type} (P : X -> Y -> Prop) (l : list X)
    (k : list Y) (i : nat) :
  Forall2 P l k -> (i < length k)%nat ->
  exists x y, l !! i = Some x /\ k !! i = Some y /\ P x y.
Proof.
  intros H Hi.
  destruct (lookup_lt_is_Some_2 k i Hi) as (y & Hy).
  destruct (Forall2_lookup_r _ _ _ _ _ H Hy) as (x & Hx & HP).
  eauto.
Qed.

(** C7: whenever [_components] returns, [fit] returns a dictionary
    whose keys are exactly the 44 declared features (20 amplitudes, 20
    relative phases, [PeriodLS2] to [PeriodLS5]); [PeriodLS1] is not a
    key.  A populated slot (position below the number of frequencies)
    carries the amplitudes and phases [_components] returned and, from
    the second slot on, the period 1 / frequency; every field of an
    unpopulated slot is [None], the missing value, and not a number. *)
Theorem fit_output_schema magnitude0 time lscargle_kwds A0 sPH freq0 :
  _components magnitude0 time lscargle_kwds 3 0.5 = Ok (A0, sPH, freq0) ->
  exists result,
    fit magnitude0 time lscargle_kwds = Ok result /\
    dom result = list_to_set features /\
    result !! "PeriodLS1"%string = None /\
    (3 <= length freq0 <= 5)%nat /\
    (forall i, (1 <= i < length freq0)%nat ->
       exists f, freq0 !! i = Some (Some f) /\
                 result !! period_key i = Some (Some (1 / f))) /\
    (forall i j, (i < length freq0)%nat -> (j < 4)%nat ->
       exists a p,
         A0 !! i ≫= (.!! j) = Some a /\ sPH !! i ≫= (.!! j) = Some p /\
         result !! amplitude_key i j = Some (Some a) /\
         result !! rel_phase_key i j = Some (Some p)) /\
    (forall i, (length freq0 <= i < 5)%nat ->
       result !! period_key i = Some None /\
       forall j, (j < 4)%nat ->
         result !! amplitude_key i j = Some None /\
         result !! rel_phase_key i j = Some None).
Proof.
  intros H. exists (list_to_map (reverse (items A0 sPH freq0))).
  split; [apply fit_items, H |].
  split; [apply items_dom |].
  split; [apply items_no_first_period |].
  apply components_shape in H.
  destruct H as (m & s & _ & _ & _ & _ & Hlen & HA & HP & _).
  split; [exact Hlen |].
  pose proof (Forall2_length _ _ _ HA) as HlenA.
  pose proof (Forall2_length _ _ _ HP) as HlenP.
  split; [| split].
  - intros i Hi.
    destruct (Forall2_lookup_both _ _ _ i HA) as (row & f & _ & Hf & Hrow);
      [lia |].
    destruct Hrow as (x & y & -> & _). exists x. split; [exact Hf |].
    rewrite (items_lookup _ _ _ _ _ (items_period A0 sPH freq0 i ltac:(lia))).
    rewrite Hf. reflexivity.
  - intros i j Hi Hj.
    destruct (Forall2_lookup_both _ _ _ i HA) as (row & f & Hr & _ & Hrow);
      [lia |].
    destruct (Forall2_lookup_both _ _ _ i HP) as (row' & f' & Hr' & _ & Hrow');
      [lia |].
    destruct Hrow as (x & y & _ & ->).
    destruct Hrow' as (raw & (x' & y' & _ & ->) & c & _ & ->).
    rewrite (items_lookup _ _ _ _ _
               (items_amplitude A0 sPH freq0 i j ltac:(lia) Hj)).
    rewrite (items_lookup _ _ _ _ _
               (items_rel_phase A0 sPH freq0 i j ltac:(lia) Hj)).
    rewrite Hr, Hr'. simpl.
    do 4 (destruct j as [| j]; [do 2 eexists; repeat split; reflexivity |]).
    lia.
  - intros i Hi. split.
    + rewrite (items_lookup _ _ _ _ _ (items_period A0 sPH freq0 i ltac:(lia))).
      rewrite (lookup_ge_None_2 freq0 i) by lia. reflexivity.
    + intros j Hj.
      rewrite (items_lookup _ _ _ _ _
                 (items_amplitude A0 sPH freq0 i j ltac:(lia) Hj)).
      rewrite (items_lookup _ _ _ _ _
                 (items_rel_phase A0 sPH freq0 i j ltac:(lia) Hj)).
      rewrite (lookup_ge_None_2 A0 i), (lookup_ge_None_2 sPH i) by lia.
      split; reflexivity.
Qed.

(** ** Phases *)

Lemma scaled_rows magnitude0 time lscargle_kwds snr_threshold window_size
    A0 sPH freq0 :
  _components magnitude0 time lscargle_kwds snr_threshold window_size =
    Ok (A0, sPH, freq0) ->
  exists s,
    _components_state magnitude0 time lscargle_kwds snr_threshold
      window_size = Ok s /\
    length sPH = length freq0 /\
    forall i, (i < length freq0)%nat ->
      exists raw c,
        PH s !! i = Some raw /\ length raw = 4%nat /\
        raw !! 0%nat = Some c /\
        sPH !! i = Some (map (fun x => x - c) raw) /\
        sPH !! i ≫= (.!! 0%nat) = Some 0.
Proof.
  intros H. pose proof (components_shape _ _ _ _ _ _ _ _ H) as Hshape.
  destruct Hshape as (m & s & _ & Hs & _ & Hfreq & Hlen & _ & HP & Hraw).
  exists s. split; [exact Hs |].
  pose proof (Forall2_length _ _ _ HP) as HlenP.
  split; [exact HlenP |].
  intros i Hi.
  destruct (Forall2_lookup_both _ _ _ i Hraw) as (raw & row & Hr & Hrow & Hc);
    [lia |].
  destruct Hc as (c & Hc & ->).
  destruct (Forall2_lookup_both _ _ _ i HP) as (row' & f & Hrow' & _ & Hph);
    [lia |].
  rewrite Hrow in Hrow'. injection Hrow' as <-.
  destruct Hph as (raw' & (x & y & _ & ->) & c' & _ & Heq).
  exists raw, c. repeat split; try assumption.
  - rewrite <- (length_map (fun x => x - c) raw), Heq. reflexivity.
  - rewrite Hrow. simpl. rewrite list_lookup_fmap, Hc. simpl.
    f_equal. lra.
Qed.

(** C4: the normalisation is per slot.  For every populated slot the
    relative phases are the four raw phases of that slot minus the
    slot's own first raw phase [c], so the relative phase of its first
    harmonic is 0, in what [_components] returns and in the dictionary
    [fit] builds from it. *)
Theorem phase_normalisation_per_slot magnitude0 time lscargle_kwds
    snr_threshold window_size A0 sPH freq0 :
  _components magnitude0 time lscargle_kwds snr_threshold window_size =
    Ok (A0, sPH, freq0) ->
  exists s,
    _components_state magnitude0 time lscargle_kwds snr_threshold
      window_size = Ok s /\
    length sPH = length freq0 /\
    (forall i, (i < length freq0)%nat ->
       exists raw c,
         PH s !! i = Some raw /\ length raw = 4%nat /\
         raw !! 0%nat = Some c /\
         sPH !! i = Some (map (fun x => x - c) raw) /\
         sPH !! i ≫= (.!! 0%nat) = Some 0) /\
    (snr_threshold = 3 -> window_size = 0.5 ->
     exists result,
       fit magnitude0 time lscargle_kwds = Ok result /\
       forall i, (i < length freq0)%nat ->
         result !! rel_phase_key i 0 = Some (Some 0)).
Proof.
  intros H. destruct (scaled_rows _ _ _ _ _ _ _ _ H) as (s & Hs & HlenP & Hslot).
  exists s. split; [exact Hs |]. split; [exact HlenP |].
  split; [exact Hslot |].
  intros -> ->. exists (list_to_map (reverse (items A0 sPH freq0))).
  split; [apply fit_items, H |].
  intros i Hi.
  assert (Hi5 : (i < 5)%nat).
  { apply components_shape in H.
    destruct H as (m & s' & _ & _ & _ & _ & Hlen & _). lia. }
  rewrite (items_lookup _ _ _ _ _
             (items_rel_phase A0 sPH freq0 i 0 Hi5 ltac:(lia))).
  destruct (Hslot i Hi) as (raw & c & _ & _ & _ & _ & ->). reflexivity.
Qed.

(** ** Amplitudes *)

(** C9: every number emitted under an amplitude key is the
    amplitude of a populated slot: the square root of a^2 + b^2, for
    the coefficients [a], [b] fitted at harmonic j + 1 of the slot's
    frequency, and so it is not negative. *)
Theorem amplitudes_nonnegative magnitude0 time lscargle_kwds A0 sPH freq0 :
  _components magnitude0 time lscargle_kwds 3 0.5 = Ok (A0, sPH, freq0) ->
  exists m result,
    Np.min time = Ok m /\
    fit magnitude0 time lscargle_kwds = Ok result /\
    forall i j x, (i < 5)%nat -> (j < 4)%nat ->
      result !! amplitude_key i j = Some (Some x) ->
      0 <= x /\ (i < length freq0)%nat /\
      exists f ydata a b c,
        freq0 !! i = Some (Some f) /\
        curve_fit (_yfunc_maker (INR (j + 1) * f))
          (map (fun t => t - m) time) ydata = (a, b, c) /\
        x = sqrt (a ^ 2 + b ^ 2).
Proof.
  intros H. pose proof (components_shape _ _ _ _ _ _ _ _ H) as Hshape.
  destruct Hshape as (m & s & Hm & _ & _ & _ & Hlen & HA & _ & _).
  exists m, (list_to_map (reverse (items A0 sPH freq0))).
  split; [exact Hm |]. split; [apply fit_items, H |].
  intros i j x Hi Hj Hx.
  rewrite (items_lookup _ _ _ _ _ (items_amplitude A0 sPH freq0 i j Hi Hj))
    in Hx.
  injection Hx as Hx.
  pose proof (Forall2_length _ _ _ HA) as HlenA.
  destruct (A0 !! i) as [row |] eqn:Hrow; [| discriminate].
  pose proof (lookup_lt_Some _ _ _ Hrow) as Hlt.
  destruct (Forall2_lookup_both _ _ _ i HA) as (row' & f & Hrow' & Hf & Hamp);
    [lia |].
  rewrite Hrow in Hrow'. injection Hrow' as <-.
  destruct Hamp as (x0 & ydata & -> & ->).
  change (map (harmonic_amplitude (map (fun t => t - m) time) ydata x0)
            (seq 0 4) !! j = Some x) in Hx.
  rewrite list_lookup_fmap in Hx.
  assert (Hseq : seq 0 4 !! j = Some j)
    by (do 4 (destruct j as [| j]; [reflexivity |]); lia).
  rewrite Hseq in Hx. injection Hx as <-.
  unfold harmonic_amplitude, harmonic_fit.
  destruct (curve_fit (_yfunc_maker (INR (j + 1) * x0))
              (map (fun t => t - m) time) ydata) as [[a b] c] eqn:E.
  split; [apply sqrt_pos |]. split; [lia |].
  exists x0, ydata, a, b, c. repeat split; assumption.
Qed.


(** ** Running the loops *)

Lemma initial_slot_eval time lscargle_kwds s f power idx :
  get_highest_frequency time (magnitude s) lscargle_kwds =
    Ok (Some f, power, idx) ->
  initial_slot time lscargle_kwds s = Ok (populated time f s).
Proof.
  intros H. unfold initial_slot. rewrite H. apply fit_slot_populated.
Qed.

Lemma extension_slot_eval time lscargle_kwds snr_threshold window_size
    freq_range s f power idx :
  get_significant_frequency time (magnitude s) lscargle_kwds snr_threshold
    window_size freq_range = Ok (Some f, power, idx) ->
  extension_slot time lscargle_kwds snr_threshold window_size freq_range s =
    Ok (Some (populated time f s)).
Proof.
  intros H. unfold extension_slot. rewrite H. simpl mbind.
  rewrite fit_slot_populated. reflexivity.
Qed.

(** Once the loops are through, the normalisation raises nothing. *)
Lemma components_of_state magnitude0 time lscargle_kwds snr_threshold
    window_size s :
  _components_state magnitude0 time lscargle_kwds snr_threshold window_size =
    Ok s ->
  exists sPH,
    _components magnitude0 time lscargle_kwds snr_threshold window_size =
      Ok (A s, sPH, freq s).
Proof.
  intros H. unfold _components. rewrite H. simpl mbind.
  destruct (components_state_well_formed _ _ _ _ _ _ H)
    as (m & _ & [_ HP] & Hlen).
  destruct (scale_phases_total _ _ _ HP) as (sPH & ->).
  - destruct (freq s); [simpl in Hlen; lia | discriminate].
  - simpl. eauto.
Qed.


(** ** Further properties of the extractor *)

Lemma Forall2_Forall_left {X Y : Type} (P : X -> Y -> Prop) (Q : X -> Prop)
    (l : list X) (k : list Y) :
  (forall x y, P x y -> Q x) -> Forall2 P l k -> Forall Q l.
Proof. intros HPQ H. induction H; constructor; eauto. Qed.

Lemma Forall2_Forall_right {X Y : Type} (P : X -> Y -> Prop) (Q : Y -> Prop)
    (l : list X) (k : list Y) :
  (forall x y, P x y -> Q y) -> Forall2 P l k -> Forall Q k.
Proof. intros HPQ H. induction H; constructor; eauto. Qed.

(** X1: whatever the threshold and the window, a result of
    [_components] has between three and five slots: as many rows of
    amplitudes and of relative phases as frequencies, four entries in
    every row, and no frequency is [None]. *)
Theorem components_result_shape magnitude0 time lscargle_kwds snr_threshold
    window_size A0 sPH freq0 :
  _components magnitude0 time lscargle_kwds snr_threshold window_size =
    Ok (A0, sPH, freq0) ->
  (3 <= length freq0 <= 5)%nat /\
  length A0 = length freq0 /\
  length sPH = length freq0 /\
  Forall (fun row => length row = 4%nat) A0 /\
  Forall (fun row => length row = 4%nat) sPH /\
  Forall (fun f => f <> None) freq0.
Proof.
  intros H. apply components_shape in H.
  destruct H as (m & s & _ & _ & _ & _ & Hlen & HA & HP & _).
  split; [exact Hlen |].
  split; [apply (Forall2_length _ _ _ HA) |].
  split; [apply (Forall2_length _ _ _ HP) |].
  split; [| split].
  - eapply Forall2_Forall_left; [| exact HA].
    intros row f (x & y & _ & ->). reflexivity.
  - eapply Forall2_Forall_left; [| exact HP].
    intros row f (raw & (x & y & _ & ->) & c & _ & ->). reflexivity.
  - eapply Forall2_Forall_right; [| exact HA].
    intros row f (x & y & -> & _). discriminate.
Qed.

(** X2: without any observation, [np.min(time)] has nothing to
    reduce: [_components] and [fit] raise [ValueError], whatever the other
    arguments. *)
Theorem empty_time_raises magnitude0 lscargle_kwds snr_threshold window_size :
  _components magnitude0 [] lscargle_kwds snr_threshold window_size =
    Raise ValueError /\
  fit magnitude0 [] lscargle_kwds = Raise ValueError.
Proof. split; reflexivity. Qed.

Lemma Rmin_shift a b d : Rmin (a + d) (b + d) = Rmin a b + d.
Proof.
  unfold Rmin. destruct (Rle_dec (a + d) (b + d)), (Rle_dec a b); lra.
Qed.

Lemma fold_Rmin_shift d (l : list R) : forall a,
  fold_left Rmin (map (fun t => t + d) l) (a + d) = fold_left Rmin l a + d.
Proof.
  induction l as [| x l IH]; intros a; simpl; [reflexivity |].
  rewrite Rmin_shift. apply IH.
Qed.

Lemma normalised_time_shift d (time : list R) m :
  map (fun t => t - (m + d)) (map (fun t => t + d) time) =
  map (fun t => t - m) time.
Proof. rewrite map_map. apply map_ext. intros t. lra. Qed.


(** X4: a search of the extension that runs without a range and
    returns a frequency returns what the ungated search returns on the
    same residual: the gate only ever rejects the highest peak, it
    never selects another one. *)
Theorem significant_is_highest time magnitude0 lscargle_kwds snr_threshold
    window_size f power idx :
  get_significant_frequency time magnitude0 lscargle_kwds snr_threshold
    window_size None = Ok (Some f, power, idx) ->
  get_highest_frequency time magnitude0 lscargle_kwds = Ok (Some f, power, idx).
Proof.
  unfold get_significant_frequency, get_highest_frequency.
  destruct (lscargle time magnitude0 lscargle_kwds) as [[frequency power0] fm].
  rewrite apply_range_None, bind_Ok_first.
  destruct (length (find_peaks power0) =? 0)%nat; [discriminate |].
  intros H. apply bind_Ok in H. destruct H as (i & Hi & H).
  apply bind_Ok in H. destruct H as (snr & _ & H).
  destruct (snr_ltb snr snr_threshold); [discriminate |].
  rewrite Hi, bind_Ok_first. exact H.
Qed.

Lemma snr_ltb_lower snr t t' :
  t' <= t -> snr_ltb snr t = false -> snr_ltb snr t' = false.
Proof.
  destruct snr as [r |]; [| reflexivity]. simpl. unfold Rltb.
  destruct (Rlt_dec r t); [discriminate |]. intros Ht _.
  destruct (Rlt_dec r t'); [lra | reflexivity].
Qed.

(** X5: the gate is monotone in the threshold.  A gated search that
    returns a frequency at the threshold [t] returns the same frequency,
    power and position at every lower threshold. *)
Theorem gate_monotone time magnitude0 lscargle_kwds t t' window_size
    freq_range f power idx :
  t' <= t ->
  get_significant_frequency time magnitude0 lscargle_kwds t window_size
    freq_range = Ok (Some f, power, idx) ->
  get_significant_frequency time magnitude0 lscargle_kwds t' window_size
    freq_range = Ok (Some f, power, idx).
Proof.
  intros Ht. unfold get_significant_frequency.
  destruct (lscargle time magnitude0 lscargle_kwds) as [[frequency0 power0] fm].
  destruct (apply_range freq_range frequency0 power0) as [[frequency power1] | e];
    [| discriminate].
  rewrite !bind_Ok_first.
  destruct (length (find_peaks power1) =? 0)%nat; [discriminate |].
  destruct (highest_peak power1 (find_peaks power1)) as [i | e];
    [| discriminate].
  rewrite !bind_Ok_first.
  destruct (calculate_snr frequency power1 i window_size) as [snr | e];
    [| discriminate].
  rewrite !bind_Ok_first.
  destruct (snr_ltb snr t) eqn:E; [discriminate |].
  rewrite (snr_ltb_lower _ _ _ Ht E). trivial.
Qed.

Lemma select_empty_interval lo hi (l : list R) :
  hi < lo -> Np.select l (between_mask lo hi l) = [].
Proof.
  intros H. induction l as [| x l IH]; simpl; [reflexivity |].
  destruct (Rleb lo x && Rleb x hi) eqn:E; [| exact IH].
  apply between_spec in E. lra.
Qed.

(** X6: a negative window holds no bin, not even the candidate: the
    position of the candidate is then looked for in an empty array and
    [calculate_snr] raises [ValueError]. *)
Theorem negative_window_raises frequency power idx window_size fmax
    peak_power :
  length frequency = length power ->
  frequency !! idx = Some fmax ->
  power !! idx = Some peak_power ->
  window_size < 0 ->
  calculate_snr frequency power idx window_size = Raise ValueError.
Proof.
  intros Hlen Hf Hp Hw. unfold calculate_snr.
  rewrite (proj2 (index_Ok _ _ _) Hp), bind_Ok_first.
  rewrite (proj2 (index_Ok _ _ _) Hf), bind_Ok_first.
  unfold Np.bool_index. rewrite between_mask_length.
  rewrite <- Hlen, Nat.eqb_refl, !bind_Ok_first.
  rewrite (select_empty_interval _ _ frequency) by lra. reflexivity.
Qed.


Lemma scale_rows_offset (PH0 PH1 : list (list R)) :
  Forall2 (fun row row' => exists d, row' = map (fun x => x + d) row) PH0 PH1 ->
  scale_rows PH1 = scale_rows PH0.
Proof.
  induction 1 as [| row row' PH0 PH1 (d & ->) _ IH]; [reflexivity |].
  simpl. rewrite IH. destruct row as [| c row]; [reflexivity |].
  simpl. destruct (scale_rows PH0) as [rows | e]; [| reflexivity].
  simpl.
  assert (Hrow : map (fun x => x - (c + d)) (map (fun x => x + d) row) =
                 map (fun x => x - c) row).
  { rewrite map_map. apply map_ext. intros x. lra. }
  rewrite Hrow. replace (c + d - (c + d)) with (c - c) by lra. reflexivity.
Qed.


Lemma sub_model_length time (m : list R) a b c Freq :
  length m = length time ->
  length (Np.sub m (_model time a b c Freq)) = length time.
Proof.
  intros H. unfold Np.sub, _model.
  rewrite length_zip_with, length_map. lia.
Qed.

Lemma populated_length time f s :
  length (magnitude s) = length time ->
  length (magnitude (populated time f s)) = length time.
Proof.
  intros H. unfold populated. cbn [magnitude].
  generalize (seq 0 4). intros js.
  revert H. generalize (magnitude s) at 1 3. 
  induction js as [| j js IH]; intros m Hm; simpl; [exact Hm |].
  apply IH. unfold harmonic_model.
  destruct (harmonic_fit time (magnitude s) f j) as [[a b] c].
  apply sub_model_length, Hm.
Qed.

Lemma initial_loop_length time lscargle_kwds n : forall s s',
  length (magnitude s) = length time ->
  initial_loop n time lscargle_kwds s = Ok s' ->
  length (magnitude s') = length time.
Proof.
  induction n as [| n IH]; intros s s' Hlen H; simpl in H.
  - injection H as <-. exact Hlen.
  - apply bind_Ok in H. destruct H as (s1 & Hs1 & H).
    unfold initial_slot in Hs1. apply bind_Ok in Hs1.
    destruct Hs1 as ([[fF power] idx] & _ & Hs1).
    apply fit_slot_Ok in Hs1. destruct Hs1 as (f & _ & ->).
    apply (IH _ _ (populated_length _ _ _ Hlen) H).
Qed.

Lemma extension_loop_length time lscargle_kwds snr_threshold window_size
    freq_range n : forall s s',
  length (magnitude s) = length time ->
  extension_loop n time lscargle_kwds snr_threshold window_size freq_range s =
    Ok s' ->
  length (magnitude s') = length time.
Proof.
  induction n as [| n IH]; intros s s' Hlen H; simpl in H.
  - injection H as <-. exact Hlen.
  - apply bind_Ok in H. destruct H as ([s1 |] & Hs1 & H).
    + apply extension_slot_Some in Hs1.
      destruct Hs1 as (f & pw & idx & _ & Hs1).
      apply fit_slot_Ok in Hs1. destruct Hs1 as (f' & _ & ->).
      apply (IH _ _ (populated_length _ _ _ Hlen) H).
    + injection H as <-. exact Hlen.
Qed.

(** X8: whitening keeps the number of observations.  When the light
    curve has as many magnitudes as times, the residual left after the
    last slot has that many entries too. *)
Theorem residual_length magnitude0 time lscargle_kwds snr_threshold
    window_size s :
  length magnitude0 = length time ->
  _components_state magnitude0 time lscargle_kwds snr_threshold window_size =
    Ok s ->
  length (magnitude s) = length time.
Proof.
  intros Hlen H. apply components_state_inv in H.
  destruct H as (m & s3 & r1 & r2 & _ & Hs3 & _ & _ & _ & _ & H).
  assert (Hlen' : length magnitude0 = length (map (fun t => t - m) time))
    by (rewrite length_map; exact Hlen).
  apply (initial_loop_length _ _ _ (mkState magnitude0 [] [] []) _ Hlen')
    in Hs3.
  rewrite <- (length_map (fun t => t - m) time).
  destruct (r1 && r2); [| destruct (negb r1); [| destruct (negb r2)]].
  - apply (extension_loop_length _ _ _ _ _ _ _ _ Hs3 H).
  - apply (extension_loop_length _ _ _ _ _ _ _ _ Hs3 H).
  - apply (extension_loop_length _ _ _ _ _ _ _ _ Hs3 H).
  - injection H as <-. exact Hs3.
Qed.

(** X9: the extension only appends.  The amplitudes, raw phases and
    frequencies of the three unconditional slots are the first three of
    the final state, unchanged, followed by those of at most two more
    slots. *)
Theorem extension_keeps_initial_slots magnitude0 time lscargle_kwds
    snr_threshold window_size s :
  _components_state magnitude0 time lscargle_kwds snr_threshold window_size =
    Ok s ->
  exists m s3 a p f,
    Np.min time = Ok m /\
    initial_loop 3 (map (fun t => t - m) time) lscargle_kwds
      (mkState magnitude0 [] [] []) = Ok s3 /\
    length (freq s3) = 3%nat /\
    A s = A s3 ++ a /\ PH s = PH s3 ++ p /\ freq s = freq s3 ++ f /\
    length a = length f /\ length p = length f /\ (length f <= 2)%nat.
Proof.
  intros H.
  destruct (components_state_well_formed _ _ _ _ _ _ H)
    as (m' & Hm' & [HA HP] & Hlen).
  apply components_state_inv in H.
  destruct H as (m & s3 & r1 & r2 & Hm & Hs3 & [HA3 HP3] & Hlen3 & _ & _ & H).
  assert (Hext : exists a p f,
            A s = A s3 ++ a /\ PH s = PH s3 ++ p /\ freq s = freq s3 ++ f).
  { destruct (r1 && r2); [| destruct (negb r1); [| destruct (negb r2)]];
      try (eapply extension_loop_extends; exact H).
    injection H as <-. exists [], [], []. rewrite !app_nil_r. auto. }
  destruct Hext as (a & p & f & Ha & Hp & Hf).
  exists m, s3, a, p, f.
  pose proof (Forall2_length _ _ _ HA) as HlA.
  pose proof (Forall2_length _ _ _ HP) as HlP.
  pose proof (Forall2_length _ _ _ HA3) as HlA3.
  pose proof (Forall2_length _ _ _ HP3) as HlP3.
  rewrite Ha, Hf, !length_app in HlA. rewrite Hp, Hf, !length_app in HlP.
  rewrite Hf, length_app in Hlen.
  repeat split; try assumption; lia.
Qed.


(** *** The highest peak *)

Lemma argmax_from_spec (l : list R) : forall pre best besti i,
  pre !! besti = Some best ->
  length pre = i ->
  (forall j y, pre !! j = Some y -> y <= best /\ ((j < besti)%nat -> y < best)) ->
  exists v,
    (pre ++ l) !! Np.argmax_from best besti i l = Some v /\
    forall j y, (pre ++ l) !! j = Some y ->
      y <= v /\ ((j < Np.argmax_from best besti i l)%nat -> y < v).
Proof.
  induction l as [| x l IH]; intros pre best besti i Hbest Hlen Hmax.
  - simpl. rewrite app_nil_r. eauto.
  - simpl. replace (pre ++ x :: l) with ((pre ++ [x]) ++ l)
      by (rewrite <- app_assoc; reflexivity).
    pose proof (lookup_lt_Some _ _ _ Hbest) as Hlt.
    unfold Rltb. destruct (Rlt_dec best x) as [Hx | Hx].
    + apply IH.
      * rewrite lookup_app_r by lia. subst i.
        rewrite Nat.sub_diag. reflexivity.
      * rewrite length_app. simpl. lia.
      * intros j y Hj. apply lookup_app_Some in Hj as [Hj | [Hge Hj]].
        -- destruct (Hmax j y Hj) as [Hle _]. split; [lra | intros _; lra].
        -- destruct (j - length pre)%nat as [| n] eqn:E; [| destruct n; discriminate].
           injection Hj as <-. split; [lra | lia].
    + apply IH.
      * apply lookup_app_l_Some, Hbest.
      * rewrite length_app. simpl. lia.
      * intros j y Hj. apply lookup_app_Some in Hj as [Hj | [Hge Hj]].
        -- apply (Hmax j y Hj).
        -- destruct (j - length pre)%nat as [| n] eqn:E; [| destruct n; discriminate].
           injection Hj as <-. split; [lra | lia].
Qed.

(** [np.argmax]: a maximum, and the first one. *)
Lemma argmax_spec (l : list R) k :
  Np.argmax l = Ok k ->
  exists v, l !! k = Some v /\
    forall j y, l !! j = Some y -> y <= v /\ ((j < k)%nat -> y < v).
Proof.
  destruct l as [| x l]; [discriminate |]. intros [= <-].
  apply (argmax_from_spec l [x] x 0%nat 1%nat); [reflexivity | reflexivity |].
  intros [| j] y Hj; simpl in Hj; [| destruct j; discriminate].
  injection Hj as <-. split; [lra | lia].
Qed.

Lemma take_idx_spec (power : list R) (peaks : list nat) : forall pp,
  Np.take_idx power peaks = Ok pp ->
  Forall2 (fun p y => power !! p = Some y) peaks pp.
Proof.
  induction peaks as [| p peaks IH]; intros pp H; simpl in H.
  - injection H as <-. constructor.
  - apply bind_Ok in H. destruct H as (y & Hy & H).
    apply bind_Ok in H. destruct H as (ys & Hys & H).
    injection H as <-. constructor; [apply index_Ok, Hy | auto].
Qed.

Lemma highest_peak_spec (power : list R) (peaks : list nat) idx :
  highest_peak power peaks = Ok idx ->
  exists k v,
    peaks !! k = Some idx /\ power !! idx = Some v /\
    forall j p, peaks !! j = Some p ->
      exists y, power !! p = Some y /\ y <= v /\ ((j < k)%nat -> y < v).
Proof.
  unfold highest_peak. intros H.
  apply bind_Ok in H. destruct H as (pp & Hpp & H).
  apply bind_Ok in H. destruct H as (k & Hk & H).
  apply index_Ok in H. apply take_idx_spec in Hpp.
  apply argmax_spec in Hk. destruct Hk as (v & Hv & Hmax).
  exists k, v. split; [exact H |]. split.
  - destruct (Forall2_lookup_l _ _ _ _ _ Hpp H) as (y & Hy & Hp).
    rewrite Hv in Hy. injection Hy as <-. exact Hp.
  - intros j p Hj.
    destruct (Forall2_lookup_l _ _ _ _ _ Hpp Hj) as (y & Hy & Hp).
    exists y. split; [exact Hp |]. apply (Hmax j y Hy).
Qed.

(** X10: the frequency the ungated search returns is the bin of the
    periodogram at a position reported by the peak finder, and no
    reported peak has more power; the peaks reported before it have
    strictly less, so that of several highest peaks the first is
    taken. *)
Theorem highest_frequency_is_maximal time magnitude0 lscargle_kwds
    frequency power fm f power' idx :
  lscargle time magnitude0 lscargle_kwds = (frequency, power, fm) ->
  get_highest_frequency time magnitude0 lscargle_kwds = Ok (Some f, power', idx) ->
  exists i k v,
    idx = Some i /\ power' = Some power /\
    frequency !! i = Some f /\
    find_peaks power !! k = Some i /\
    power !! i = Some v /\
    forall j p, find_peaks power !! j = Some p ->
      exists y, power !! p = Some y /\ y <= v /\ ((j < k)%nat -> y < v).
Proof.
  intros Hls. unfold get_highest_frequency. rewrite Hls.
  destruct (length (find_peaks power) =? 0)%nat; [discriminate |].
  intros H. apply bind_Ok in H. destruct H as (i & Hi & H).
  apply bind_Ok in H. destruct H as (x & Hx & H).
  injection H as -> <- <-.
  apply highest_peak_spec in Hi. destruct Hi as (k & v & Hk & Hv & Hmax).
  exists i, k, v. repeat split; try assumption. apply index_Ok, Hx.
Qed.

(** *** The scale of the periodogram *)

Lemma select_map {X Y : Type} (g : X -> Y) (l : list X) : forall mask,
  Np.select (map g l) mask = map g (Np.select l mask).
Proof.
  induction l as [| x l IH]; intros [| b mask]; simpl; try reflexivity.
  destruct b; simpl; rewrite IH; reflexivity.
Qed.

Lemma take_drop_map {X Y : Type} (g : X -> Y) (l : list X) (k : nat) :
  take k (map g l) ++ drop (S k) (map g l) =
  map g (take k l ++ drop (S k) l).
Proof.
  revert k. induction l as [| x l IH]; intros [| k]; simpl; try reflexivity.
  f_equal. apply IH.
Qed.

Lemma fold_sum_scale k (l : list R) : forall a,
  fold_left Rplus (map (Rmult k) l) (k * a) = k * fold_left Rplus l a.
Proof.
  induction l as [| x l IH]; intros a; simpl; [reflexivity |].
  rewrite <- Rmult_plus_distr_l. apply IH.
Qed.

Lemma mean_scale k (l : list R) : Np.mean (map (Rmult k) l) = k * Np.mean l.
Proof.
  unfold Np.mean, Np.sum. rewrite length_map.
  replace 0 with (k * 0) at 1 by lra. rewrite fold_sum_scale.
  unfold Rdiv. ring.
Qed.

Lemma ratio_scale k p m : k <> 0 -> (k * p) / (k * m) = p / m.
Proof.
  intros Hk. unfold Rdiv. rewrite Rinv_mult.
  replace (k * p * (/ k * / m)) with ((k * / k) * (p * / m)) by ring.
  rewrite Rinv_r by exact Hk. ring.
Qed.



(** *** What can go wrong *)

Lemma take_idx_total (power : list R) (peaks : list nat) :
  (forall i, i ∈ peaks -> (i < length power)%nat) ->
  exists pp, Np.take_idx power peaks = Ok pp /\ length pp = length peaks.
Proof.
  induction peaks as [| p peaks IH]; intros H; simpl.
  - exists []. split; reflexivity.
  - destruct (lookup_lt_is_Some_2 power p) as (y & Hy);
      [apply H; left |].
    rewrite (proj2 (index_Ok _ _ _) Hy), bind_Ok_first.
    destruct IH as (pp & -> & Hlen); [intros i Hi; apply H; right; exact Hi |].
    rewrite bind_Ok_first. exists (y :: pp). split; [reflexivity |].
    simpl. rewrite Hlen. reflexivity.
Qed.

Lemma highest_peak_total (power : list R) (peaks : list nat) :
  peaks <> [] ->
  (forall i, i ∈ peaks -> (i < length power)%nat) ->
  exists idx, highest_peak power peaks = Ok idx /\ (idx < length power)%nat.
Proof.
  intros Hne Hin. unfold highest_peak.
  destruct (take_idx_total power peaks Hin) as (pp & -> & Hlen).
  rewrite bind_Ok_first.
  destruct pp as [| y pp]; [destruct peaks; [congruence | discriminate] |].
  destruct (Np.argmax (y :: pp)) as [k | e] eqn:Ek; [| discriminate].
  rewrite bind_Ok_first.
  destruct (argmax_spec _ _ Ek) as (v & Hv & _).
  apply lookup_lt_Some in Hv. rewrite Hlen in Hv.
  destruct (lookup_lt_is_Some_2 peaks k Hv) as (idx & Hidx).
  exists idx. split; [apply index_Ok, Hidx |].
  apply Hin. eapply list_elem_of_lookup_2, Hidx.
Qed.

Lemma select_length_eq {X Y : Type} (l : list X) : forall (l' : list Y) mask,
  length l = length l' ->
  length (Np.select l mask) = length (Np.select l' mask).
Proof.
  induction l as [| x l IH]; intros [| y l'] mask H; try discriminate;
    [reflexivity |].
  destruct mask as [| b mask]; [reflexivity |]. injection H as H.
  simpl. destruct b; simpl; rewrite (IH l' mask H); reflexivity.
Qed.

Lemma apply_range_total frequency power freq_range :
  length frequency = length power ->
  freq_range = None \/ (exists lo hi, freq_range = Some [lo; hi]) ->
  exists frequency' power',
    apply_range freq_range frequency power = Ok (frequency', power') /\
    length frequency' = length power'.
Proof.
  intros Hlen [-> | (lo & hi & ->)].
  - exists frequency, power. split; [reflexivity | exact Hlen].
  - unfold apply_range. simpl. unfold Np.bool_index.
    rewrite between_mask_length, <- Hlen, Nat.eqb_refl. simpl.
    do 2 eexists. split; [reflexivity |].
    apply select_length_eq, Hlen.
Qed.

Lemma select_keeps lo hi (l : list R) : forall i x,
  l !! i = Some x -> lo <= x <= hi ->
  x ∈ Np.select l (between_mask lo hi l).
Proof.
  induction l as [| y l IH]; intros [| i] x Hx Hin; try discriminate.
  - injection Hx as ->. simpl.
    rewrite (proj2 (between_spec lo hi x) Hin). left.
  - simpl in Hx. simpl.
    destruct (Rleb lo y && Rleb y hi); [right |]; eapply IH; eassumption.
Qed.

Lemma first_true_bound (l : list bool) : forall i j,
  Np.first_true i l = Some j -> (i <= j < i + length l)%nat.
Proof.
  induction l as [| b l IH]; intros i j H; simpl in H; [discriminate |].
  destruct b.
  - injection H as <-. simpl. lia.
  - apply IH in H. simpl. lia.
Qed.

Lemma argmax_bool_bound (l : list bool) k :
  Np.argmax_bool l = Ok k -> (k < length l)%nat.
Proof.
  destruct l as [| b l]; [discriminate |]. intros H. injection H as H.
  subst k.
  change (default 0 (Np.first_true 0 (b :: l)) < length (b :: l))%nat.
  destruct (Np.first_true 0 (b :: l)) as [j |] eqn:E.
  - apply first_true_bound in E. simpl in *. lia.
  - simpl. lia.
Qed.

Lemma calculate_snr_total frequency power idx window_size :
  length frequency = length power ->
  (idx < length power)%nat ->
  0 <= window_size ->
  exists snr, calculate_snr frequency power idx window_size = Ok snr.
Proof.
  intros Hlen Hidx Hw. unfold calculate_snr.
  destruct (lookup_lt_is_Some_2 power idx Hidx) as (peak_power & Hp).
  destruct (lookup_lt_is_Some_2 frequency idx) as (fmax & Hf); [lia |].
  rewrite (proj2 (index_Ok _ _ _) Hp), bind_Ok_first.
  rewrite (proj2 (index_Ok _ _ _) Hf), bind_Ok_first.
  unfold Np.bool_index. rewrite between_mask_length.
  rewrite <- Hlen, Nat.eqb_refl, !bind_Ok_first.
  set (mask := between_mask (fmax - window_size) (fmax + window_size)
                 frequency).
  assert (Hmem : fmax ∈ Np.select frequency mask)
    by (eapply select_keeps; [exact Hf | lra]).
  destruct (Np.argmax_bool
              (map (fun f => Reqb f fmax) (Np.select frequency mask)))
    as [k | e] eqn:Ek.
  - rewrite bind_Ok_first. apply argmax_bool_bound in Ek.
    rewrite length_map in Ek. unfold Np.delete.
    rewrite (select_length_eq power frequency mask) by lia.
    rewrite (proj2 (Nat.ltb_lt _ _) Ek), bind_Ok_first.
    destruct (length _ =? 0)%nat; eauto.
  - destruct (Np.select frequency mask); [inversion Hmem | discriminate].
Qed.

Lemma get_significant_frequency_total time magnitude0 lscargle_kwds
    snr_threshold window_size freq_range :
  aligned_periodogram -> peaks_in_bounds ->
  0 <= window_size ->
  freq_range = None \/ (exists lo hi, freq_range = Some [lo; hi]) ->
  exists r,
    get_significant_frequency time magnitude0 lscargle_kwds snr_threshold
      window_size freq_range = Ok r.
Proof.
  intros Hal Hpk Hw Hr. unfold get_significant_frequency.
  destruct (lscargle time magnitude0 lscargle_kwds)
    as [[frequency0 power0] fm] eqn:Hls.
  destruct (apply_range_total frequency0 power0 freq_range
              (Hal _ _ _ _ _ _ Hls) Hr) as (frequency & power & -> & Hlen).
  rewrite bind_Ok_first.
  destruct (find_peaks power) as [| p peaks] eqn:E; [simpl; eauto |].
  cbn [length Nat.eqb].
  destruct (highest_peak_total power (p :: peaks)) as (idx & -> & Hidx);
    [discriminate | rewrite <- E; apply Hpk |].
  rewrite bind_Ok_first.
  destruct (calculate_snr_total frequency power idx window_size Hlen Hidx Hw)
    as (snr & ->).
  rewrite bind_Ok_first.
  destruct (snr_ltb snr snr_threshold); [eauto |].
  destruct (lookup_lt_is_Some_2 frequency idx) as (f & Hf); [lia |].
  rewrite (proj2 (index_Ok _ _ _) Hf), bind_Ok_first. eauto.
Qed.

Lemma get_highest_frequency_cases time magnitude0 lscargle_kwds
    frequency power fm :
  aligned_periodogram -> peaks_in_bounds ->
  lscargle time magnitude0 lscargle_kwds = (frequency, power, fm) ->
  (find_peaks power = [] /\
   get_highest_frequency time magnitude0 lscargle_kwds = Ok no_peak) \/
  (find_peaks power <> [] /\
   exists f i,
     get_highest_frequency time magnitude0 lscargle_kwds =
       Ok (Some f, Some power, Some i)).
Proof.
  intros Hal Hpk Hls. unfold get_highest_frequency. rewrite Hls.
  destruct (find_peaks power) as [| p peaks] eqn:E; [left; split; reflexivity |].
  right. split; [discriminate |]. cbn [length Nat.eqb].
  destruct (highest_peak_total power (p :: peaks)) as (idx & -> & Hidx);
    [discriminate | rewrite <- E; apply Hpk |].
  rewrite bind_Ok_first.
  destruct (lookup_lt_is_Some_2 frequency idx) as (f & Hf);
    [rewrite (Hal _ _ _ _ _ _ Hls); exact Hidx |].
  rewrite (proj2 (index_Ok _ _ _) Hf), bind_Ok_first. eauto.
Qed.

Lemma initial_loop_cases time lscargle_kwds n :
  aligned_periodogram -> peaks_in_bounds ->
  forall s,
    (exists s', initial_loop n time lscargle_kwds s = Ok s') \/
    (initial_loop n time lscargle_kwds s = Raise TypeError /\
     exists k s' frequency power fm,
       (k < n)%nat /\
       initial_loop k time lscargle_kwds s = Ok s' /\
       lscargle time (magnitude s') lscargle_kwds = (frequency, power, fm) /\
       find_peaks power = []).
Proof.
  intros Hal Hpk. induction n as [| n IH]; intros s; [left; simpl; eauto |].
  destruct (lscargle time (magnitude s) lscargle_kwds)
    as [[frequency power] fm] eqn:Hls.
  destruct (get_highest_frequency_cases _ _ _ _ _ _ Hal Hpk Hls)
    as [[Hnone Hg] | [_ (f & i & Hg)]].
  - right. split.
    + simpl. rewrite (initial_slot_no_peak _ _ _ _ _ _ Hls Hnone). reflexivity.
    + exists 0%nat, s, frequency, power, fm.
      repeat split; [lia | assumption | assumption].
  - simpl. rewrite (initial_slot_eval _ _ _ _ _ _ Hg), bind_Ok_first.
    destruct (IH (populated time f s))
      as [(s' & Hs') | (Hraise & k & s' & fr & pw & fm' & Hk & Hloop & Hls' & Hnone)].
    + left. eauto.
    + right. split; [exact Hraise |].
      exists (S k), s', fr, pw, fm'. repeat split; try assumption; [lia |].
      simpl. rewrite (initial_slot_eval _ _ _ _ _ _ Hg), bind_Ok_first.
      exact Hloop.
Qed.

Lemma extension_loop_total time lscargle_kwds snr_threshold window_size
    freq_range n :
  aligned_periodogram -> peaks_in_bounds ->
  0 <= window_size ->
  freq_range = None \/ (exists lo hi, freq_range = Some [lo; hi]) ->
  forall s, exists s',
    extension_loop n time lscargle_kwds snr_threshold window_size freq_range s =
      Ok s'.
Proof.
  intros Hal Hpk Hw Hr. induction n as [| n IH]; intros s; [simpl; eauto |].
  simpl. unfold extension_slot.
  destruct (get_significant_frequency_total time (magnitude s) lscargle_kwds
              snr_threshold window_size freq_range Hal Hpk Hw Hr)
    as ([[fF pw] idx] & ->).
  rewrite bind_Ok_first. destruct fF as [f |].
  - rewrite fit_slot_populated, !bind_Ok_first. apply IH.
  - rewrite bind_Ok_first. eauto.
Qed.

Lemma any_between_total lo hi (l : list (option R)) :
  Forall (fun f => f <> None) l -> exists b, any_between lo hi l = Ok b.
Proof.
  induction 1 as [| [f |] l Hf _ IH]; simpl; [eauto | | congruence].
  destruct (Rleb lo f && Rleb f hi); eauto.
Qed.

Lemma range_present_total r (l : list (option R)) lo hi :
  r = [lo; hi] ->
  Forall (fun f => f <> None) l -> exists b, range_present r l = Ok b.
Proof.
  intros -> H. unfold range_present.
  change (Np.index [lo; hi] 0) with (Ok lo).
  change (Np.index [lo; hi] 1) with (Ok hi).
  rewrite !bind_Ok_first. apply any_between_total, H.
Qed.

(** Given collaborators that keep to their contracts, a window that is
    not negative and at least one observation, the loops either go
    through or stop with [TypeError] at an unconditional search without
    peak. *)
Lemma components_state_cases magnitude0 time lscargle_kwds snr_threshold
    window_size m :
  aligned_periodogram -> peaks_in_bounds ->
  0 <= window_size ->
  Np.min time = Ok m ->
  (exists s,
     _components_state magnitude0 time lscargle_kwds snr_threshold
       window_size = Ok s) \/
  (_components_state magnitude0 time lscargle_kwds snr_threshold window_size =
     Raise TypeError /\
   exists k s frequency power fm,
     (k < 3)%nat /\
     initial_loop k (map (fun t => t - m) time) lscargle_kwds
       (mkState magnitude0 [] [] []) = Ok s /\
     lscargle (map (fun t => t - m) time) (magnitude s) lscargle_kwds =
       (frequency, power, fm) /\
     find_peaks power = []).
Proof.
  intros Hal Hpk Hw Hm. unfold _components_state. rewrite Hm, bind_Ok_first.
  destruct (initial_loop_cases (map (fun t => t - m) time) lscargle_kwds 3
              Hal Hpk (mkState magnitude0 [] [] []))
    as [(s3 & Hs3) | (Hraise & Hwhy)].
  - left. rewrite Hs3, bind_Ok_first.
    assert (Hwf0 : well_formed (map (fun t => t - m) time)
                     (mkState magnitude0 [] [] [])) by (split; constructor).
    destruct (initial_loop_well_formed _ _ _ _ _ Hwf0 Hs3) as ([HA _] & _).
    assert (Hsome : Forall (fun f => f <> None) (freq s3)).
    { eapply Forall2_Forall_right; [| exact HA].
      intros row f (x & y & -> & _). discriminate. }
    destruct (range_present_total range1 _ 0.4 3.3 eq_refl Hsome) as (r1 & ->).
    rewrite bind_Ok_first.
    destruct (range_present_total range2 _ 3.3 27.4 eq_refl Hsome) as (r2 & ->).
    rewrite bind_Ok_first.
    destruct (r1 && r2); [| destruct (negb r1); [| destruct (negb r2)]];
      try (apply extension_loop_total; try assumption;
           first [left; reflexivity | right; do 2 eexists; reflexivity]).
    eauto.
  - right. rewrite Hraise. split; [reflexivity | exact Hwhy].
Qed.



End FourierComponents.

(** ** Worked examples *)

(** C1, as the specification has it, fails: on the light curve of one
    observation (t = 0, magnitude 2) the source leaves the residual -6
    (the same fit taken off four times), fitting every harmonic to the
    current residual leaves 0. *)
Lemma harmonics_not_sequential :
  harmonics interpolating_fit (seq 0 4) (Some 1) [0] [2] [] [] [2] <>
  harmonics_sequential interpolating_fit (seq 0 4) (Some 1) [0] [] [] [2].
Proof.
  rewrite harmonics_closed_form. intros H.
  apply (f_equal (fun r => match r with Ok (_, _, [m]) => m | _ => 0 end)) in H.
  unfold harmonic_model, harmonic_fit, interpolating_fit, _yfunc_maker in H.
  simpl in H. unfold _yfunc_maker in H.
  rewrite ?Rmult_0_r, ?sin_0, ?cos_0 in H. lra.
Qed.

(** Decide the comparisons of concrete numbers left in the goal. *)
Ltac Rdecide :=
  repeat match goal with
  | |- context [Rleb ?x ?y] =>
      first [rewrite (Rleb_true x y) by lra | rewrite (Rleb_false x y) by lra]
  | |- context [Rltb ?x ?y] =>
      first [rewrite (Rltb_true x y) by lra | rewrite (Rltb_false x y) by lra]
  | |- context [Reqb ?x ?y] =>
      first [rewrite (Reqb_true x y) by lra | rewrite (Reqb_false x y) by lra]
  end.

(** Run a search on a tabulated periodogram. *)
Ltac run_search :=
  unfold get_highest_frequency, get_significant_frequency, tabulated,
    apply_range, highest_peak, calculate_snr, Np.bool_index, local_maxima,
    snr_ltb, Np.mean, Np.sum, range1, range2, grid, strong_power, weak_power,
    rising_power, increasing_power;
  repeat (simpl; Rdecide); try reflexivity.

Lemma bind_Ok_l {X Y : Type} (x : X) (k : X -> res Y) : Ok x ≫= k = k x.
Proof. reflexivity. Qed.

(** *** The searches on the three spectra *)

Lemma highest_strong time magnitude :
  get_highest_frequency unit (tabulated grid strong_power) local_maxima
    time magnitude tt = Ok (Some 5, Some strong_power, Some 4%nat).
Proof. run_search. Qed.

Lemma highest_weak time magnitude :
  get_highest_frequency unit (tabulated grid weak_power) local_maxima
    time magnitude tt = Ok (Some 5, Some weak_power, Some 4%nat).
Proof. run_search. Qed.

Lemma significant_strong time magnitude :
  get_significant_frequency unit (tabulated grid strong_power) local_maxima
    time magnitude tt 3 0.5 (Some range1) =
  Ok (Some 1, Some [1; 5; 1], Some 1%nat).
Proof. run_search. Qed.

Lemma significant_weak time magnitude :
  get_significant_frequency unit (tabulated grid weak_power) local_maxima
    time magnitude tt 3 0.5 (Some range1) = Ok no_peak.
Proof. run_search. Qed.

(** Three unconditional slots at the frequency 5. *)
Lemma initial_three power fit time s :
  (forall t m,
     get_highest_frequency unit (tabulated grid power) local_maxima t m tt =
       Ok (Some 5, Some power, Some 4%nat)) ->
  initial_loop unit (tabulated grid power) local_maxima fit 3 time tt s =
    Ok (populated fit time 5 (populated fit time 5 (populated fit time 5 s))).
Proof.
  intros H. cbn [initial_loop].
  rewrite (initial_slot_eval _ _ _ _ _ _ _ _ _ _ (H _ _)), bind_Ok_l.
  rewrite (initial_slot_eval _ _ _ _ _ _ _ _ _ _ (H _ _)), bind_Ok_l.
  rewrite (initial_slot_eval _ _ _ _ _ _ _ _ _ _ (H _ _)). reflexivity.
Qed.

Lemma ranges_of_three (s : state) :
  freq s = [Some 5; Some 5; Some 5] ->
  range_present range1 (freq s) = Ok false /\
  range_present range2 (freq s) = Ok true.
Proof.
  intros ->. unfold range_present, range1, range2. simpl.
  Rdecide. split; reflexivity.
Qed.

(** The strong spectrum: the range [0.4, 3.3] is missing after three
    slots, and the extension finds the frequency 1 in it, twice. *)
Lemma state_strong fit magnitude0 :
  _components_state unit (tabulated grid strong_power) local_maxima fit
    magnitude0 [0] tt 3 0.5 =
  Ok (populated fit [0 - 0] 1 (populated fit [0 - 0] 1
       (populated fit [0 - 0] 5 (populated fit [0 - 0] 5
         (populated fit [0 - 0] 5 (mkState magnitude0 [] [] [])))))).
Proof.
  unfold _components_state. change (Np.min [0]) with (Ok 0).
  rewrite bind_Ok_l. change (map (fun t => t - 0) [0]) with [0 - 0].
  rewrite (initial_three _ _ _ _ highest_strong), bind_Ok_l.
  destruct (ranges_of_three
              (populated fit [0 - 0] 5 (populated fit [0 - 0] 5
                (populated fit [0 - 0] 5 (mkState magnitude0 [] [] [])))))
    as [-> ->]; [reflexivity |].
  rewrite !bind_Ok_l. cbn [andb negb extension_loop].
  rewrite (extension_slot_eval _ _ _ _ _ _ _ _ _ _ _ _ _
             (significant_strong _ _)), bind_Ok_l.
  rewrite (extension_slot_eval _ _ _ _ _ _ _ _ _ _ _ _ _
             (significant_strong _ _)). reflexivity.
Qed.

(** The weak spectrum: the peak in [0.4, 3.3] fails the gate, three
    slots remain. *)
Lemma state_weak fit magnitude0 :
  _components_state unit (tabulated grid weak_power) local_maxima fit
    magnitude0 [0] tt 3 0.5 =
  Ok (populated fit [0 - 0] 5 (populated fit [0 - 0] 5
       (populated fit [0 - 0] 5 (mkState magnitude0 [] [] [])))).
Proof.
  unfold _components_state. change (Np.min [0]) with (Ok 0).
  rewrite bind_Ok_l. change (map (fun t => t - 0) [0]) with [0 - 0].
  rewrite (initial_three _ _ _ _ highest_weak), bind_Ok_l.
  destruct (ranges_of_three
              (populated fit [0 - 0] 5 (populated fit [0 - 0] 5
                (populated fit [0 - 0] 5 (mkState magnitude0 [] [] [])))))
    as [-> ->]; [reflexivity |].
  rewrite !bind_Ok_l. cbn [andb negb].
  apply extension_loop_break, extension_slot_break, significant_weak.
Qed.

(** What [_components] returns on the two spectra. *)
Lemma run_strong fit magnitude0 :
  exists A0 sPH,
    _components unit (tabulated grid strong_power) local_maxima fit
      magnitude0 [0] tt 3 0.5 =
    Ok (A0, sPH, [Some 5; Some 5; Some 5; Some 1; Some 1]).
Proof.
  destruct (components_of_state _ _ _ _ _ _ _ _ _ _
              (state_strong fit magnitude0)) as (sPH & H).
  eexists _, sPH. exact H.
Qed.

Lemma run_weak fit magnitude0 :
  exists A0 sPH,
    _components unit (tabulated grid weak_power) local_maxima fit
      magnitude0 [0] tt 3 0.5 =
    Ok (A0, sPH, [Some 5; Some 5; Some 5]).
Proof.
  destruct (components_of_state _ _ _ _ _ _ _ _ _ _
              (state_weak fit magnitude0)) as (sPH & H).
  eexists _, sPH. exact H.
Qed.

(** *** The claims on the examples *)

(** C2 on a light curve whose periodogram only rises: the first search
    finds no peak and the call raises. *)
Lemma no_peak_raises_TypeError_witness :
  _components unit (tabulated grid increasing_power) local_maxima
    interpolating_fit [2] [0] tt 3 0.5 = Raise TypeError /\
  fit unit (tabulated grid increasing_power) local_maxima interpolating_fit
    [2] [0] tt = Raise TypeError.
Proof.
  apply (no_peak_raises_TypeError unit (tabulated grid increasing_power)
           local_maxima interpolating_fit [2] [0] tt 3 0.5 0 0%nat
           (mkState [2] [] [] []) grid increasing_power 0%nat).
  - reflexivity.
  - lia.
  - reflexivity.
  - reflexivity.
  - unfold local_maxima, increasing_power. simpl. Rdecide. reflexivity.
Defined.

(** C5 on the three bins of the strong spectrum that lie in
    [0.4, 3.3]: the peak has power 5, its two neighbours power 1. *)
Lemma calculate_snr_spec_witness :
  calculate_snr [0.5; 1; 1.5] [1; 5; 1] 1 0.5 =
    Ok (Finite (5 / Np.mean [1; 1])) /\
  snr_ltb PInf 3 = false.
Proof.
  destruct (calculate_snr_spec [0.5; 1; 1.5] [1; 5; 1] 1 0.5 1 5)
    as [Hsnr Hinf].
  - reflexivity.
  - repeat (apply NoDup_cons; split;
            [intros H; repeat (apply elem_of_cons in H as [H | H]; [lra |]);
             inversion H |]).
    apply NoDup_nil_2.
  - reflexivity.
  - reflexivity.
  - lra.
  - split; [| apply Hinf]. rewrite Hsnr. simpl. Rdecide. reflexivity.
Defined.

(** C8 after the three slots of the weak spectrum: the peak in
    [0.4, 3.3] has twice the power of its neighbours, below the threshold
    3, and the two iterations of the extension leave the three slots as
    they are. *)
Lemma low_snr_stops_extension_witness :
  extension_loop unit (tabulated grid weak_power) local_maxima
    interpolating_fit 2 [0 - 0] tt 3 0.5 (Some range1)
    (populated interpolating_fit [0 - 0] 5
       (populated interpolating_fit [0 - 0] 5
          (populated interpolating_fit [0 - 0] 5 (mkState [2] [] [] [])))) =
  Ok (populated interpolating_fit [0 - 0] 5
        (populated interpolating_fit [0 - 0] 5
           (populated interpolating_fit [0 - 0] 5 (mkState [2] [] [] [])))).
Proof.
  destruct (low_snr_stops_extension unit (tabulated grid weak_power)
              local_maxima interpolating_fit [0 - 0] tt 3 0.5 (Some range1)
              (populated interpolating_fit [0 - 0] 5
                 (populated interpolating_fit [0 - 0] 5
                    (populated interpolating_fit [0 - 0] 5
                       (mkState [2] [] [] []))))
              grid weak_power 0%nat [0.5; 1; 1.5] [1; 2; 1] 1%nat
              (Finite (2 / Np.mean [1; 1])))
    as (_ & _ & Hloop & _).
  - reflexivity.
  - run_search.
  - run_search. discriminate.
  - run_search.
  - run_search.
  - run_search.
  - apply Hloop.
Defined.

(** C10 after the three slots of the rising spectrum: the powers of
    the bins in [0.4, 3.3] only rise, there is no peak among them. *)
Lemma no_peak_stops_extension_witness :
  extension_loop unit (tabulated grid rising_power) local_maxima
    interpolating_fit 2 [0 - 0] tt 3 0.5 (Some range1)
    (populated interpolating_fit [0 - 0] 5
       (populated interpolating_fit [0 - 0] 5
          (populated interpolating_fit [0 - 0] 5 (mkState [2] [] [] [])))) =
  Ok (populated interpolating_fit [0 - 0] 5
        (populated interpolating_fit [0 - 0] 5
           (populated interpolating_fit [0 - 0] 5 (mkState [2] [] [] [])))).
Proof.
  destruct (no_peak_stops_extension unit (tabulated grid rising_power)
              local_maxima interpolating_fit [0 - 0] tt 3 0.5 (Some range1)
              (populated interpolating_fit [0 - 0] 5
                 (populated interpolating_fit [0 - 0] 5
                    (populated interpolating_fit [0 - 0] 5
                       (mkState [2] [] [] []))))
              grid rising_power 0%nat [0.5; 1; 1.5] [1; 2; 3])
    as (_ & _ & Hloop & _).
  - reflexivity.
  - run_search.
  - run_search.
  - apply Hloop.
Defined.

(** C6 on the strong spectrum: the three frequencies are 5, the range
    [0.4, 3.3] is missing, and both extension slots get a frequency from
    it. *)
Lemma extension_targets_missing_range_witness :
  exists A0 sPH freq0,
    _components unit (tabulated grid strong_power) local_maxima
      interpolating_fit [2] [0] tt 3 0.5 = Ok (A0, sPH, freq0) /\
    freq0 = [Some 5; Some 5; Some 5; Some 1; Some 1] /\
    forall i f, (3 <= i)%nat -> freq0 !! i = Some (Some f) -> 0.4 <= f <= 3.3.
Proof.
  destruct (components_of_state _ _ _ _ _ _ _ _ _ _
              (state_strong interpolating_fit [2])) as (sPH & H).
  eexists _, sPH, _. split; [exact H |]. split; [reflexivity |].
  destruct (extension_targets_missing_range _ _ _ _ _ _ _ _ _ _ _ _ H)
    as (m & s3 & r1 & r2 & s & Hm & Hs3 & _ & Hr1 & _ & _ & _ & _ & Hone & _).
  injection Hm as <-.
  change (map (fun t => t - 0) [0]) with [0 - 0] in Hs3, Hone.
  rewrite (initial_three _ _ _ _ highest_strong) in Hs3. injection Hs3 as <-.
  destruct r1.
  - destruct (proj1 Hr1 eq_refl) as (f & Hf & Hrange).
    cbn in Hf. repeat (apply elem_of_cons in Hf as [Hf | Hf];
                       [injection Hf as ->; lra |]).
    inversion Hf.
  - apply (Hone eq_refl).
Defined.

(** C4 on the strong spectrum: five slots, each with relative phase 0
    for its first harmonic. *)
Lemma phase_normalisation_per_slot_witness :
  exists A0 sPH freq0,
    _components unit (tabulated grid strong_power) local_maxima
      interpolating_fit [2] [0] tt 3 0.5 = Ok (A0, sPH, freq0) /\
    length freq0 = 5%nat /\
    forall i, (i < 5)%nat -> sPH !! i ≫= (.!! 0%nat) = Some 0.
Proof.
  destruct (run_strong interpolating_fit [2]) as (A0 & sPH & H).
  exists A0, sPH, [Some 5; Some 5; Some 5; Some 1; Some 1].
  split; [exact H |]. split; [reflexivity |].
  destruct (phase_normalisation_per_slot _ _ _ _ _ _ _ _ _ _ _ _ H)
    as (s & _ & _ & Hslot & _).
  intros i Hi.
  destruct (Hslot i Hi) as (raw & c & _ & _ & _ & _ & H0). exact H0.
Defined.

(** C7 on the weak spectrum: three populated slots, the fields of the
    fourth and the fifth are [None]. *)
Lemma fit_output_schema_witness :
  exists result,
    fit unit (tabulated grid weak_power) local_maxima interpolating_fit
      [2] [0] tt = Ok result /\
    dom result = list_to_set features /\
    result !! "PeriodLS1"%string = None /\
    result !! period_key 1 = Some (Some (1 / 5)) /\
    result !! period_key 4 = Some None /\
    result !! amplitude_key 3 0 = Some None.
Proof.
  destruct (run_weak interpolating_fit [2]) as (A0 & sPH & H).
  destruct (fit_output_schema _ _ _ _ _ _ _ _ _ _ H)
    as (result & Hfit & Hdom & Hfirst & _ & Hperiod & _ & Habsent).
  exists result.
  split; [exact Hfit |]. split; [exact Hdom |]. split; [exact Hfirst |].
  split; [| split].
  - destruct (Hperiod 1%nat) as (f & Hf & Hr); [simpl; lia |].
    injection Hf as <-. exact Hr.
  - destruct (Habsent 4%nat) as [Hp _]; [simpl; lia | exact Hp].
  - destruct (Habsent 3%nat) as [_ Hj]; [simpl; lia |].
    destruct (Hj 0%nat) as [Ha _]; [lia | exact Ha].
Defined.

(** C9 on the strong spectrum. *)
Lemma amplitudes_nonnegative_witness :
  exists result,
    fit unit (tabulated grid strong_power) local_maxima interpolating_fit
      [2] [0] tt = Ok result /\
    forall i j x, (i < 5)%nat -> (j < 4)%nat ->
      result !! amplitude_key i j = Some (Some x) -> 0 <= x.
Proof.
  destruct (run_strong interpolating_fit [2]) as (A0 & sPH & H).
  destruct (amplitudes_nonnegative _ _ _ _ _ _ _ _ _ _ H)
    as (m & result & _ & Hfit & Hall).
  exists result. split; [exact Hfit |].
  intros i j x Hi Hj Hx. apply (Hall i j x Hi Hj Hx).
Defined.

(** C3: on the weak spectrum, with the light curve of one observation
    (t = 0, magnitude 2), the three slots have the raw first phases
    atan 2, atan (-6) and atan 18.  The source gives the second slot the
    relative phase 0 for its first harmonic; taking off the first phase
    of the first slot, as the class documentation writes it
    (PH'_ij = PH_ij - PH_00), gives atan (-6) - atan 2, which is
    negative. *)
Lemma phases_not_global :
  exists s A0 sPH gPH p,
    _components_state unit (tabulated grid weak_power) local_maxima
      interpolating_fit [2] [0] tt 3 0.5 = Ok s /\
    _components unit (tabulated grid weak_power) local_maxima
      interpolating_fit [2] [0] tt 3 0.5 = Ok (A0, sPH, freq s) /\
    sPH !! 1%nat ≫= (.!! 0%nat) = Some 0 /\
    scale_phases_global (PH s) = Ok gPH /\
    gPH !! 1%nat ≫= (.!! 0%nat) = Some p /\
    p < 0.
Proof.
  pose proof (state_weak interpolating_fit [2]) as Hs.
  destruct (components_of_state _ _ _ _ _ _ _ _ _ _ Hs) as (sPH & H).
  destruct (scaled_rows _ _ _ _ _ _ _ _ _ _ _ _ H) as (s' & _ & _ & Hslot).
  eexists _, _, sPH, _, _.
  split; [exact Hs |]. split; [exact H |].
  split.
  { destruct (Hslot 1%nat) as (raw & c & _ & _ & _ & _ & H0);
      [cbn [freq populated app length]; lia | exact H0]. }
  split; [reflexivity |]. split; [reflexivity |].
  unfold harmonic_phase, harmonic_fit, interpolating_fit.
  cbn [magnitude populated fold_left seq]. 
  unfold harmonic_model, harmonic_fit, interpolating_fit, _model, _yfunc_maker,
    Np.sub.
  cbn [map zip_with].
  apply Rlt_minus, atan_increasing.
  lra.
Qed.

(** *** The further properties on the examples *)

Lemma tabulated_aligned frequency power :
  length frequency = length power ->
  aligned_periodogram unit (tabulated frequency power).
Proof. intros H time magnitude0 kw f p fm [= <- <- _]. exact H. Qed.

Lemma local_maxima_from_bounds (x : list R) : forall i prev j,
  j ∈ local_maxima_from i prev x -> (i <= j < i + length x)%nat.
Proof.
  induction x as [| cur x IH]; intros i prev j Hj; [inversion Hj |].
  destruct x as [| next rest]; [inversion Hj |].
  cbn [local_maxima_from] in Hj.
  destruct (Rltb prev cur && Rltb next cur).
  - apply elem_of_cons in Hj as [-> | Hj]; [simpl; lia |].
    apply IH in Hj. simpl in *. lia.
  - apply IH in Hj. simpl in *. lia.
Qed.

(** The peak finder of the examples reports positions of its input. *)
Lemma local_maxima_in_bounds : peaks_in_bounds local_maxima.
Proof.
  intros [| x0 power] i Hi; [inversion Hi |].
  apply local_maxima_from_bounds in Hi. simpl. lia.
Qed.

Lemma strong_always_a_peak :
  always_a_peak unit (tabulated grid strong_power) local_maxima.
Proof.
  intros time magnitude0 kw f p fm [= <- <- _].
  unfold local_maxima, strong_power. simpl. Rdecide. discriminate.
Qed.

(** X1 on the strong spectrum. *)
Lemma components_result_shape_witness :
  exists A0 sPH freq0,
    _components unit (tabulated grid strong_power) local_maxima
      interpolating_fit [2] [0] tt 3 0.5 = Ok (A0, sPH, freq0) /\
    length A0 = 5%nat /\ length sPH = 5%nat /\
    Forall (fun row => length row = 4%nat) A0.
Proof.
  destruct (run_strong interpolating_fit [2]) as (A0 & sPH & H).
  exists A0, sPH, [Some 5; Some 5; Some 5; Some 1; Some 1].
  destruct (components_result_shape _ _ _ _ _ _ _ _ _ _ _ _ H)
    as (_ & HA & HP & Hrows & _).
  repeat split; assumption.
Defined.

(** X4 on the strong spectrum, searched without a range: the highest
    peak, at the frequency 5, has no other bin in its window. *)
Lemma significant_is_highest_witness :
  get_highest_frequency unit (tabulated grid strong_power) local_maxima
    [0] [2] tt = Ok (Some 5, Some strong_power, Some 4%nat).
Proof.
  apply (significant_is_highest unit (tabulated grid strong_power)
           local_maxima [0] [2] tt 3 0.5).
  run_search.
Defined.

(** X5 on the strong spectrum: accepted at the threshold 3, accepted
    at the threshold 2. *)
Lemma gate_monotone_witness :
  get_significant_frequency unit (tabulated grid strong_power) local_maxima
    [0] [2] tt 2 0.5 (Some range1) = Ok (Some 1, Some [1; 5; 1], Some 1%nat).
Proof.
  apply (gate_monotone unit (tabulated grid strong_power) local_maxima
           [0] [2] tt 3 2 0.5 (Some range1)).
  - lra.
  - apply significant_strong.
Defined.

(** X6 with the window -0.5. *)
Lemma negative_window_raises_witness :
  calculate_snr [0.5; 1; 1.5] [1; 5; 1] 1 (-0.5) = Raise ValueError.
Proof.
  apply (negative_window_raises [0.5; 1; 1.5] [1; 5; 1] 1 (-0.5) 1 5).
  - reflexivity.
  - reflexivity.
  - reflexivity.
  - lra.
Defined.


(** X8 and X9 on the strong spectrum. *)
Lemma residual_length_witness :
  exists s,
    _components_state unit (tabulated grid strong_power) local_maxima
      interpolating_fit [2] [0] tt 3 0.5 = Ok s /\
    length (magnitude s) = 1%nat.
Proof.
  eexists. split; [apply state_strong |].
  apply (residual_length unit (tabulated grid strong_power) local_maxima
           interpolating_fit [2] [0] tt 3 0.5).
  - reflexivity.
  - apply state_strong.
Defined.

Lemma extension_keeps_initial_slots_witness :
  exists s s3 a,
    _components_state unit (tabulated grid strong_power) local_maxima
      interpolating_fit [2] [0] tt 3 0.5 = Ok s /\
    A s = A s3 ++ a /\ length (freq s3) = 3%nat /\ (length a <= 2)%nat.
Proof.
  destruct (extension_keeps_initial_slots unit (tabulated grid strong_power)
              local_maxima interpolating_fit [2] [0] tt 3 0.5 _
              (state_strong interpolating_fit [2]))
    as (m & s3 & a & p & f & _ & _ & Hlen & Ha & _ & _ & Hla & _ & Hlf).
  eexists _, s3, a. split; [apply state_strong |].
  split; [exact Ha |]. split; [exact Hlen | lia].
Defined.

(** X10 on the strong spectrum: the peak of power 9 at the frequency 5
    is taken, not the peak of power 5 reported before it. *)
Lemma highest_frequency_is_maximal_witness :
  exists k v,
    local_maxima strong_power !! k = Some 4%nat /\
    strong_power !! 4%nat = Some v /\
    forall j p, local_maxima strong_power !! j = Some p ->
      exists y, strong_power !! p = Some y /\ y <= v.
Proof.
  destruct (highest_frequency_is_maximal unit (tabulated grid strong_power)
              local_maxima [0] [2] tt grid strong_power 0%nat 5
              (Some strong_power) (Some 4%nat) eq_refl
              (highest_strong [0] [2]))
    as (i & k & v & Hi & _ & _ & Hk & Hv & Hmax).
  injection Hi as <-. exists k, v. split; [exact Hk |]. split; [exact Hv |].
  intros j p Hj. destruct (Hmax j p Hj) as (y & Hy & Hle & _). eauto.
Defined.


Lemma increasing_raises :
  _components unit (tabulated grid increasing_power) local_maxima
    interpolating_fit [2] [0] tt 3 0.5 = Raise TypeError.
Proof.
  unfold _components, _components_state.
  change (Np.min [0]) with (Ok 0). rewrite bind_Ok_l.
  cbn [initial_loop].
  rewrite (initial_slot_no_peak unit (tabulated grid increasing_power)
             local_maxima interpolating_fit _ tt _ grid increasing_power
             0%nat eq_refl); [reflexivity |].
  unfold local_maxima, increasing_power. simpl. Rdecide. reflexivity.
Qed.


